(** * IPTV client: cache layer and adaptive playback retry

    A shallow embedding of the decision logic of the client:
    - the namespaced cache keys ([OptimizedXtreamAPI.getCacheKey] and the
      [getCacheKey] closure of the [useCachedData] hook),
    - the cache store access and [clearCache],
    - [fetchWithCache], both as one call run to completion and as a step
      machine over the single-threaded event loop,
    - the movie stream resolver of [XtreamAPI],
    - the retry logic of the [VideoPlayer] component.

    Numbers are modelled as [Z] (all of them are integers far below 2^53:
    millisecond clocks, durations, ids), strings as [string], the persistent
    key-value storage and the [abortControllers] object as [gmap string _]. *)

From stdpp Require Import gmap strings list fin_maps.
From Stdlib Require Import ZArith Ascii String Lia.
From Stdlib Require Import DecimalString.

Local Open Scope string_scope.
#[local] Arguments String.append !_ _ / : simpl nomatch.

(** ** JavaScript string primitives *)

Module JsString.

(** [s.startsWith(p)] *)
Definition startsWith (s p : string) : bool := String.prefix p s.

(** [s.includes(sub)] *)
Fixpoint includes (s sub : string) : bool :=
  String.prefix sub s ||
  match s with
  | EmptyString => false
  | String _ s' => includes s' sub
  end.

(** Does the character [c] occur in [s]? *)
Fixpoint hasChar (c : ascii) (s : string) : bool :=
  match s with
  | EmptyString => false
  | String a s' => if Ascii.eqb a c then true else hasChar c s'
  end.

End JsString.

(** ** Namespace key builder *)

Module Keys.
Import JsString.

(** The credential fields shared by [XtreamAPI] and [OptimizedXtreamAPI]. *)
Record Credentials := {
  username : string;
  password : string;
  baseUrl : string;
  isAuthenticated : bool
}.

(** [initialize(username, password, serverUrl)] *)
Definition initialize (u p serverUrl : string) : Credentials :=
  {| username := u; password := p; baseUrl := serverUrl;
     isAuthenticated := true |}.

(** The field values after [reset()]. *)
Definition resetCredentials : Credentials :=
  {| username := ""; password := ""; baseUrl := "";
     isAuthenticated := false |}.

(** [`cache:${this.username}@${this.baseUrl}:`], the prefix built in
    [clearCache]. *)
Definition cachePrefix (api : Credentials) : string :=
  "cache:" +:+ username api +:+ "@" +:+ baseUrl api +:+ ":".

(** [OptimizedXtreamAPI.getCacheKey]:
    [`cache:${this.username}@${this.baseUrl}:${key}`]. *)
Definition getCacheKey (api : Credentials) (key : string) : string :=
  "cache:" +:+ username api +:+ "@" +:+ baseUrl api +:+ ":" +:+ key.

(** [getCacheKey] of the [useCachedData] hook: the bare key while the API
    is not initialised, the same template otherwise. *)
Definition hookGetCacheKey (api : Credentials) (key : string) : string :=
  if negb (isAuthenticated api) then key
  else "cache:" +:+ username api +:+ "@" +:+ baseUrl api +:+ ":" +:+ key.

(** The identity a key is scoped by. *)
Definition identity (api : Credentials) : string * string :=
  (username api, baseUrl api).

End Keys.

(** Identities used in the examples. *)

Module Identities.
Import Keys.



Definition home : Credentials := initialize "ann" "pw" "http://tv.example".

(** The same username on another port of the same host. *)
Definition homeAlt : Credentials :=
  initialize "ann" "pw" "http://tv.example:8080".

Definition dan : Credentials := initialize "dan" "pw" "http://tv.example".

End Identities.

(** ** Cache store and fetch-with-cache engine ([OptimizedXtreamAPI]) *)

Module Cache.
Import JsString Keys.

Section Engine.
(** The payload type [T] of the generic methods. *)
Context {Data : Type}.

(** What the string stored under a key is when it is read back:
    - [Blank]: the empty string, falsy in [if (!cachedJson)];
    - [Garbage]: [JSON.parse] throws on it, or gives [null] so that reading
      [cache.expiresAt] throws;
    - [Entry data timestamp expiresAt]: an object; [expiresAt] is absent in
      the objects [{data, timestamp}] that the [useCachedData] hook writes
      under keys of the same shape. *)
Inductive Item :=
| Blank
| Garbage
| Entry (data : Data) (timestamp : Z) (expiresAt : option Z).

(** The result object of [getFromCache]. *)
Record Cached := { data : Data; isValid : bool }.

(** The outcome of [optimizedFetch]: the parsed response, or a rejection
    (network error, non-2xx status, parse error, abort). *)
Inductive FetchOutcome :=
| Response (response : Data)
| Failure (error : string).

(** How a call of [fetchWithCache] ends. *)
Inductive Result :=
| Ok (value : Data)
| Err (error : string).

(** [cache.expiresAt > Date.now()]; a missing [expiresAt] is [undefined],
    and [undefined > n] is false. *)
Definition stillValid (expiresAt : option Z) (now : Z) : bool :=
  match expiresAt with
  | Some e => (e >? now)%Z
  | None => false
  end.

(** The body of [getFromCache] once [AsyncStorage.getItem(cacheKey)] has
    answered. [ioOk = false] stands for any exception inside the [try]
    block; [now] is [Date.now()]. *)
Definition readCache (st : gmap string Item) (cacheKey : string)
    (ioOk : bool) (now : Z) : option Cached :=
  if ioOk then
    match st !! cacheKey with
    | None => None
    | Some Blank => None
    | Some Garbage => None
    | Some (Entry d _ e) => Some {| data := d; isValid := stillValid e now |}
    end
  else None.

(** [getFromCache(key)] *)
Definition getFromCache (api : Credentials) (st : gmap string Item)
    (ioOk : bool) (now : Z) (key : string) : option Cached :=
  readCache st (getCacheKey api key) ioOk now.

(** The object [saveToCache] serialises. The two reads of [Date.now()] sit
    in one synchronous block and are taken as one instant [now]. *)
Definition cacheData (d : Data) (now duration : Z) : Item :=
  Entry d now (Some (now + duration)%Z).

(** [saveToCache(key, data, duration)]: [ioOk = false] stands for any
    exception inside the [try] block, which is logged and dropped. *)
Definition saveToCache (api : Credentials) (st : gmap string Item)
    (ioOk : bool) (now : Z) (key : string) (d : Data) (duration : Z)
    : gmap string Item :=
  if ioOk then <[getCacheKey api key := cacheData d now duration]> st
  else st.

(** *** The calls in progress

    [fetchWithCache] is an [async] function: a call runs up to its next
    [await], and is resumed by the event loop. A call is at one of these
    points. *)
Inductive Pc :=
| AwaitGet
    (* [await this.getFromCache(key)], [getItem] issued *)
| AwaitFetch (cached : option Cached)
    (* [await optimizedFetch(url, {signal})], promise pending *)
| FetchSettled (cached : option Cached) (out : FetchOutcome)
    (* the request has completed or was aborted: the promise is settled,
       [abort()] has no effect on it any more, and [fetchWithCache] waits
       for its turn to be resumed *)
| AwaitSave (cacheKey : string) (entry : Item) (response : Data)
    (* [await this.saveToCache(...)], [setItem] issued *)
| Done (r : Result).

Record Call := {
  callKey : string;
  callUrl : string;
  callDuration : Z;
  readKey : string;   (* the [cacheKey] computed by [getFromCache] *)
  pc : Pc
}.

(** The API object, the storage it writes to, and the calls in progress.
    A call is named by its position in [calls]; a call creates at most one
    [AbortController], which is named after the call. *)
Record World := {
  creds : Credentials;
  abortControllers : gmap string nat;
  storage : gmap string Item;
  calls : list Call;
  aborted : list nat;                     (* controllers whose [abort()] ran *)
  writes : list (nat * string * Item);    (* committed writes, latest first *)
  requests : list (nat * string)          (* network requests, latest first *)
}.

Definition withPc (p : Pc) (c : Call) : Call :=
  {| callKey := callKey c; callUrl := callUrl c;
     callDuration := callDuration c; readKey := readKey c; pc := p |}.

Definition setPc (i : nat) (p : Pc) (w : World) : World :=
  {| creds := creds w; abortControllers := abortControllers w;
     storage := storage w; calls := alter (withPc p) i (calls w);
     aborted := aborted w; writes := writes w; requests := requests w |}.

(** What [abort()] does to the call that awaits the fetch: a pending
    promise is rejected, a settled one is left alone. *)
Definition rejectPending (c : Call) : Call :=
  match pc c with
  | AwaitFetch cached => withPc (FetchSettled cached (Failure "AbortError")) c
  | _ => c
  end.

(** [controller.abort()] *)
Definition abort (ctl : nat) (w : World) : World :=
  {| creds := creds w; abortControllers := abortControllers w;
     storage := storage w; calls := alter rejectPending ctl (calls w);
     aborted := ctl :: aborted w; writes := writes w;
     requests := requests w |}.

(** Lines 122-139: cancel the controller registered under [key], register
    a new one, start the request. *)
Definition startFetch (i : nat) (key url : string) (w : World) : World :=
  let w1 := match abortControllers w !! key with
            | Some old => abort old w
            | None => w
            end in
  {| creds := creds w1; abortControllers := <[key := i]> (abortControllers w1);
     storage := storage w1; calls := calls w1; aborted := aborted w1;
     writes := writes w1; requests := (i, url) :: requests w1 |}.

(** The [finally] block: [delete this.abortControllers[key]]. *)
Definition release (key : string) (w : World) : World :=
  {| creds := creds w; abortControllers := delete key (abortControllers w);
     storage := storage w; calls := calls w; aborted := aborted w;
     writes := writes w; requests := requests w |}.

(** The write of [saveToCache] reaching the storage. *)
Definition commit (i : nat) (cacheKey : string) (entry : Item) (ioOk : bool)
    (w : World) : World :=
  if ioOk then
    {| creds := creds w; abortControllers := abortControllers w;
       storage := <[cacheKey := entry]> (storage w); calls := calls w;
       aborted := aborted w; writes := (i, cacheKey, entry) :: writes w;
       requests := requests w |}
  else w.

(** Resuming after [await this.getFromCache(key)] (lines 117-139). *)
Definition afterGet (i : nat) (c : Call) (ioOk : bool) (now : Z) (w : World)
    : Pc * World :=
  let cached := readCache (storage w) (readKey c) ioOk now in
  match cached with
  | Some {| data := d; isValid := true |} => (Done (Ok d), w)
  | _ => (AwaitFetch cached, startFetch i (callKey c) (callUrl c) w)
  end.

(** Resuming after [await optimizedFetch(...)] (lines 141-154): on a
    response [saveToCache] runs up to its [setItem]; on a rejection the
    [catch] and [finally] blocks run. *)
Definition afterFetch (c : Call) (cached : option Cached) (out : FetchOutcome)
    (now : Z) (w : World) : Pc * World :=
  match out with
  | Response r =>
      (AwaitSave (getCacheKey (creds w) (callKey c))
                 (cacheData r now (callDuration c)) r, w)
  | Failure e =>
      (Done (match cached with
             | Some cd => Ok (data cd)
             | None => Err e
             end),
       release (callKey c) w)
  end.

(** Resuming after [await this.saveToCache(...)]: [return response], then
    the [finally] block. *)
Definition afterSave (i : nat) (c : Call) (cacheKey : string) (entry : Item)
    (r : Data) (ioOk : bool) (w : World) : Pc * World :=
  (Done (Ok r), release (callKey c) (commit i cacheKey entry ioOk w)).

(** *** One call run to completion *)

(** What the environment answers to one call: the storage read, the clock
    at the lookup, the network, the clock at the save, the storage write. *)
Record Env := {
  readOk : bool;
  tLookup : Z;
  net : FetchOutcome;
  tSave : Z;
  writeOk : bool
}.

(** [fetchWithCache(key, url, cacheDuration)] with no other call resumed in
    between; the call is given the next free position as its name. *)
Definition fetchWithCache (key url : string) (cacheDuration : Z) (env : Env)
    (w : World) : Result * World :=
  let cached :=
    getFromCache (creds w) (storage w) (readOk env) (tLookup env) key in
  match cached with
  | Some {| data := d; isValid := true |} => (Ok d, w)
  | _ =>
      let i := List.length (calls w) in
      let w1 := startFetch i key url w in
      match net env with
      | Response response =>
          let w2 :=
            commit i (getCacheKey (creds w1) key)
                   (cacheData response (tSave env) cacheDuration)
                   (writeOk env) w1 in
          (Ok response, release key w2)
      | Failure error =>
          (match cached with
           | Some c => Ok (data c)
           | None => Err error
           end,
           release key w1)
      end
  end.

(** *** The event loop *)

Inductive Event :=
| Invoke (key url : string) (cacheDuration : Z)
    (* a caller invokes [fetchWithCache] *)
| GetDone (i : nat) (ioOk : bool) (now : Z)
    (* call [i] is resumed with the answer of the storage read *)
| NetDone (i : nat) (out : FetchOutcome)
    (* the request of call [i] completes: its promise settles *)
| FetchDone (i : nat) (now : Z)
    (* call [i] is resumed with the settled fetch *)
| SaveDone (i : nat) (ioOk : bool)
    (* the storage write of call [i] completes and the call is resumed *)
| Initialize (u p serverUrl : string)
| Reset.

(** [reset()]: clear the credentials, abort every registered controller,
    empty the registry. *)
Definition reset (w : World) : World :=
  let w1 := foldr abort w (map snd (map_to_list (abortControllers w))) in
  {| creds := resetCredentials; abortControllers := ∅;
     storage := storage w1; calls := calls w1; aborted := aborted w1;
     writes := writes w1; requests := requests w1 |}.

(** One turn of the event loop; [None] when the event cannot happen in
    [w]. *)
Definition step (ev : Event) (w : World) : option World :=
  match ev with
  | Invoke key url d =>
      Some {| creds := creds w; abortControllers := abortControllers w;
              storage := storage w;
              calls := calls w ++
                [{| callKey := key; callUrl := url; callDuration := d;
                    readKey := getCacheKey (creds w) key; pc := AwaitGet |}];
              aborted := aborted w; writes := writes w;
              requests := requests w |}
  | GetDone i ioOk now =>
      match calls w !! i with
      | Some c =>
          match pc c with
          | AwaitGet =>
              let '(p, w1) := afterGet i c ioOk now w in Some (setPc i p w1)
          | _ => None
          end
      | None => None
      end
  | NetDone i out =>
      match calls w !! i with
      | Some c =>
          match pc c with
          | AwaitFetch cached => Some (setPc i (FetchSettled cached out) w)
          | _ => None
          end
      | None => None
      end
  | FetchDone i now =>
      match calls w !! i with
      | Some c =>
          match pc c with
          | FetchSettled cached out =>
              let '(p, w1) := afterFetch c cached out now w in
              Some (setPc i p w1)
          | _ => None
          end
      | None => None
      end
  | SaveDone i ioOk =>
      match calls w !! i with
      | Some c =>
          match pc c with
          | AwaitSave ck entry r =>
              let '(p, w1) := afterSave i c ck entry r ioOk w in
              Some (setPc i p w1)
          | _ => None
          end
      | None => None
      end
  | Initialize u p serverUrl =>
      Some {| creds := initialize u p serverUrl;
              abortControllers := abortControllers w; storage := storage w;
              calls := calls w; aborted := aborted w; writes := writes w;
              requests := requests w |}
  | Reset => Some (reset w)
  end.

(** A schedule: the events in the order the loop runs them. *)
Fixpoint run (evs : list Event) (w : World) : option World :=
  match evs with
  | [] => Some w
  | ev :: evs' =>
      match step ev w with
      | Some w1 => run evs' w1
      | None => None
      end
  end.

(** The requests of [key] that are on the network: the calls that await a
    pending fetch. *)
Definition pendingOn (key : string) (c : Call) : bool :=
  match pc c with
  | AwaitFetch _ => String.eqb (callKey c) key
  | _ => false
  end.

Definition inFlight (key : string) (w : World) : nat :=
  List.length (List.filter (pendingOn key) (calls w)).


(** A world with no call yet. *)
Definition initial (api : Credentials) (st : gmap string Item) : World :=
  {| creds := api; abortControllers := ∅; storage := st; calls := [];
     aborted := []; writes := []; requests := [] |}.

(** *** Predicates on calls and worlds *)

(** Is the call answered from the cache ([cached && cached.isValid])? *)
Definition servedFromCache (key : string) (env : Env) (w : World)
    : bool :=
  match getFromCache (creds w) (storage w) (readOk env) (tLookup env) key with
  | Some c => isValid c
  | None => false
  end.

Definition notPending (c : Call) : Prop :=
  ∀ cached, pc c ≠ AwaitFetch cached.


(** The turns of the event loop that make up one call run on its own. *)
Definition schedule (key url : string) (d : Z) (env : Env) (w : World)
    : list Event :=
  let i := List.length (calls w) in
  Invoke key url d :: GetDone i (readOk env) (tLookup env) ::
  (if servedFromCache key env w then []
   else NetDone i (net env) :: FetchDone i (tSave env) ::
        match net env with
        | Response _ => [SaveDone i (writeOk env)]
        | Failure _ => []
        end).

(** Two worlds that differ in their calls only. *)
Definition agree (w w' : World) : Prop :=
  creds w = creds w' ∧ abortControllers w = abortControllers w' ∧
  storage w = storage w' ∧ aborted w = aborted w' ∧
  writes w = writes w' ∧ requests w = requests w'.

(** *** [clearCache] *)

Inductive ClearType := All | Live | Vod | Series.

(** The filter of [clearCache] over the keys of the storage. *)
Definition keysToRemove (type : ClearType) (cachePrefix : string)
    (keys : list string) : list string :=
  match type with
  | All => List.filter (λ key, startsWith key cachePrefix) keys
  | Live =>
      List.filter (λ key,
        startsWith key cachePrefix &&
        (includes key "live_categories" || includes key "live_streams")) keys
  | Vod =>
      List.filter (λ key,
        startsWith key cachePrefix &&
        (includes key "vod_categories" || includes key "vod_streams"
         || includes key "vod_info")) keys
  | Series =>
      List.filter (λ key,
        startsWith key cachePrefix &&
        (includes key "series_categories" || includes key "series_cat_"
         || includes key "series_info" || includes key "series_all")) keys
  end.

(** [AsyncStorage.multiRemove(keys)] *)
Definition multiRemove (keys : list string) (st : gmap string Item)
    : gmap string Item :=
  foldr delete st keys.

(** [clearCache(type)]: [keysOk] and [removeOk] are false when
    [getAllKeys], respectively [multiRemove], throws; the [catch] block
    logs and returns. *)
Definition clearCache (api : Credentials) (type : ClearType)
    (keysOk removeOk : bool) (st : gmap string Item) : gmap string Item :=
  if keysOk then
    let keys := map fst (map_to_list st) in
    let toRemove := keysToRemove type (cachePrefix api) keys in
    if (0 <? List.length toRemove)%nat then
      if removeOk then multiRemove toRemove st else st
    else st
  else st.

End Engine.

Arguments Item : clear implicits.
Arguments Cached : clear implicits.
Arguments FetchOutcome : clear implicits.
Arguments Result : clear implicits.
Arguments Pc : clear implicits.
Arguments Call : clear implicits.
Arguments World : clear implicits.
Arguments Env : clear implicits.
Arguments Event : clear implicits.

End Cache.

(** Worlds, environments and schedules used in the examples; the payloads
    are JSON texts. *)

Module CacheScenarios.
Import Keys Identities Cache.

Definition halfHour : Z := 30 * 60 * 1000.

Definition minutes (n : Z) : Z := n * 60 * 1000.

Definition staleEntry : Item string := Entry "[1]" 0 (Some 1000%Z).

Definition emptyWorld : World string := initial home ∅.

Definition staleWorld : World string :=
  initial home {[ getCacheKey home "vod_streams_all" := staleEntry ]}.

Definition netOk (t : Z) : Env string :=
  {| readOk := true; tLookup := t; net := Response "[1,2]"; tSave := t;
     writeOk := true |}.

Definition netDown (t : Z) : Env string :=
  {| readOk := true; tLookup := t; net := Failure "Network request failed";
     tSave := t; writeOk := true |}.

Definition storageBroken (t : Z) : Env string :=
  {| readOk := false; tLookup := t; net := Response "[1,2]"; tSave := t;
     writeOk := false |}.

(** Three calls for one key with an empty cache. The second call aborts
    the first; the first, resumed with the rejection, runs its [finally]
    block and deletes the controller the second call registered; the third
    call then finds no controller to abort. *)
Definition threeCalls : list (Event string) :=
  [ Invoke "live_categories" "u" 3600000; GetDone 0 true 0;
    Invoke "live_categories" "u" 3600000; GetDone 1 true 1;
    FetchDone 0 2;
    Invoke "live_categories" "u" 3600000; GetDone 2 true 3 ].

(** Then the third call gets its response and writes it, and after it the
    second call gets an older response and writes it. *)
Definition bothComplete : list (Event string) :=
  [ NetDone 2 (Response "[3]"); FetchDone 2 10; SaveDone 2 true;
    NetDone 1 (Response "[2]"); FetchDone 1 11; SaveDone 1 true ].





Definition sharedStorage : gmap string (Item string) :=
  {[ getCacheKey homeAlt "live_categories" := staleEntry ]}.

End CacheScenarios.

(** ** Container formats and stream URLs ([XtreamAPI]) *)

Module Resolver.
Import JsString Keys.

(** ['m3u8' | 'mp4' | 'ts'] *)
Inductive Format := M3u8 | Mp4 | Ts.

Definition formatName (f : Format) : string :=
  match f with
  | M3u8 => "m3u8"
  | Mp4 => "mp4"
  | Ts => "ts"
  end.

#[global] Instance Format_eq_dec : EqDecision Format.
Proof. solve_decision. Defined.

Definition Format_eqb (a b : Format) : bool :=
  match a, b with
  | M3u8, M3u8 | Mp4, Mp4 | Ts, Ts => true
  | _, _ => false
  end.

(** [`${n}`] for a number; [None] is [NaN]. *)
Definition showNumber (n : option Z) : string :=
  match n with
  | Some z => NilZero.string_of_int (Z.to_int z)
  | None => "NaN"
  end.

(** [s.toLowerCase()] on the ASCII letters. *)
Definition lowerChar (c : ascii) : ascii :=
  let n := nat_of_ascii c in
  if (65 <=? n)%nat && (n <=? 90)%nat then ascii_of_nat (n + 32) else c.

Fixpoint toLowerCase (s : string) : string :=
  match s with
  | EmptyString => EmptyString
  | String c s' => String (lowerChar c) (toLowerCase s')
  end.

(** A value found where the code expects a stream id: a number or a
    string. *)
Inductive JsId :=
| IdNum (n : Z)
| IdStr (s : string).

(** Truthiness of an optional id: [undefined], [0] and [''] are falsy. *)
Definition truthyId (v : option JsId) : bool :=
  match v with
  | None => false
  | Some (IdNum n) => negb (n =? 0)%Z
  | Some (IdStr s) => negb (String.eqb s "")
  end.

(** Truthiness of an optional string. *)
Definition truthyStr (v : option string) : bool :=
  match v with
  | None => false
  | Some s => negb (String.eqb s "")
  end.

Definition isSpace (c : ascii) : bool :=
  let n := nat_of_ascii c in
  (n =? 32)%nat || ((9 <=? n)%nat && (n <=? 13)%nat).

Fixpoint skipSpaces (s : string) : string :=
  match s with
  | String c s' => if isSpace c then skipSpaces s' else s
  | EmptyString => s
  end.

Definition digitOf (c : ascii) : option Z :=
  let n := nat_of_ascii c in
  if (48 <=? n)%nat && (n <=? 57)%nat then Some (Z.of_nat (n - 48)) else None.

(** The longest run of decimal digits at the start of [s], read as a
    number; [acc] is [None] until a digit has been seen. *)
Fixpoint readDigits (s : string) (acc : option Z) : option Z :=
  match s with
  | EmptyString => acc
  | String c s' =>
      match digitOf c with
      | Some d =>
          readDigits s' (Some (match acc with
                               | Some a => 10 * a + d
                               | None => d
                               end)%Z)
      | None => acc
      end
  end.

(** [parseInt(v, 10)]; [None] is [NaN]. *)
Definition parseInt (v : JsId) : option Z :=
  match v with
  | IdNum n => Some n
  | IdStr s =>
      match skipSpaces s with
      | String "-" r => option_map Z.opp (readDigits r None)
      | String "+" r => readDigits r None
      | r => readDigits r None
      end
  end.

(** [getLiveStreamingUrl(streamId)] *)
Definition getLiveStreamingUrl (api : Credentials) (streamId : option Z)
    : string :=
  baseUrl api +:+ "/live/" +:+ username api +:+ "/" +:+ password api +:+ "/"
  +:+ showNumber streamId +:+ ".m3u8".

(** [getVodStreamingUrl(streamId, format)] *)
Definition getVodStreamingUrl (api : Credentials) (streamId : option Z)
    (format : Format) : string :=
  baseUrl api +:+ "/movie/" +:+ username api +:+ "/" +:+ password api +:+ "/"
  +:+ showNumber streamId +:+ "." +:+ formatName format.

(** [getSeriesStreamingUrl(streamId, format)] *)
Definition getSeriesStreamingUrl (api : Credentials) (streamId : option Z)
    (format : Format) : string :=
  baseUrl api +:+ "/series/" +:+ username api +:+ "/" +:+ password api +:+ "/"
  +:+ showNumber streamId +:+ "." +:+ formatName format.

(** [getPreferredStreamFormat(containerExtension)] *)
Definition getPreferredStreamFormat (containerExtension : string) : Format :=
  if String.eqb containerExtension "" then M3u8
  else
    let ext := toLowerCase containerExtension in
    if String.eqb ext "mp4" then Mp4
    else if String.eqb ext "ts" then Ts
    else M3u8.

(** The fields of [movie_data] the resolver reads; [None] is a missing
    field. *)
Record MovieData := {
  stream_id : option JsId;
  container_extension : option string;
  direct_source : option string
}.

(** The [movieDetails] argument: [None] is [null]/[undefined]; the
    [movie_data] field may be missing as well. *)
Record MovieDetails := { movie_data : option MovieData }.

(** [getOptimalMovieStreamingUrl(movieDetails)] *)
Definition getOptimalMovieStreamingUrl (api : Credentials)
    (movieDetails : option MovieDetails) : string :=
  match movieDetails with
  | None => ""
  | Some details =>
      let streamId := movie_data details ≫= stream_id in
      if negb (truthyId streamId) then ""
      else
        let containerExtension :=
          match movie_data details ≫= container_extension with
          | Some e => e
          | None => ""
          end in
        let format := getPreferredStreamFormat containerExtension in
        let directSource := movie_data details ≫= direct_source in
        if truthyStr directSource then
          match directSource with Some u => u | None => "" end
        else
          getVodStreamingUrl api (streamId ≫= parseInt) format
  end.

(** Does the item have a stream id that passes [if (!streamId)]? *)
Definition hasStreamId (movieDetails : option MovieDetails) : bool :=
  match movieDetails with
  | Some details => truthyId (movie_data details ≫= stream_id)
  | None => false
  end.

(** The [direct_source] field of the item, if any. *)
Definition directSource (movieDetails : option MovieDetails) : option string :=
  match movieDetails with
  | Some details => movie_data details ≫= direct_source
  | None => None
  end.

End Resolver.

(** Items used in the examples. *)

Module ResolverScenarios.
Import Resolver.

Definition cdnUrl : string := "http://cdn.example/films/42.mp4".

(** An item with a direct source URL whose [stream_id] is missing. *)
Definition directOnly : MovieDetails :=
  {| movie_data := Some {| stream_id := None;
                           container_extension := Some "mp4";
                           direct_source := Some cdnUrl |} |}.

(** An item with a direct source URL and a stream id. *)
Definition directAndId : MovieDetails :=
  {| movie_data := Some {| stream_id := Some (IdStr "42");
                           container_extension := Some "mkv";
                           direct_source := Some cdnUrl |} |}.

End ResolverScenarios.

(** ** The retry logic of [VideoPlayer] *)

Module Player.
Import JsString Keys Resolver.

Inductive StreamType := LiveStream | Vod | SeriesStream.

(** The props the retry logic reads. [streamId] is a number or
    [undefined]; [hasOnError] tells whether [onError] was passed. *)
Record Props := {
  streamId : option Z;
  streamType : StreamType;
  hasOnError : bool
}.

(** [if (streamId)] *)
Definition truthyNum (n : option Z) : bool :=
  match n with
  | Some z => negb (z =? 0)%Z
  | None => false
  end.

(** The component's state, refs and pending asynchronous work. *)
Record State := {
  isBuffering : bool;
  isInRetryFlow : bool;
  currentFormat : Format;
  playbackAttempt : nat;
  sourceUri : string;                  (* [source.uri], assigned by a retry *)
  videoMounted : bool;                 (* [videoRef.current] is set *)
  loadTimeout : bool;                  (* the 15 s timer is pending *)
  unloading : list (Format * string);  (* [unloadAsync()] promises, oldest
                                          first, with the [nextFormat] and
                                          [newUrl] of their callbacks *)
  reloadTimers : nat;                  (* pending 1 s timers *)
  loads : list string;                 (* [loadAsync] calls, latest first *)
  reported : list string               (* [onError] calls, latest first *)
}.

(** The state values a closure was created with: a function of a render
    sees the [const] bindings of that render. *)
Record Render := {
  seenBuffering : bool;
  seenInRetryFlow : bool;
  seenFormat : Format;
  seenAttempt : nat
}.

(** The first render: the initial values of the [useState] calls. The
    effect that sets the load timer has the dependency list [[]], so its
    timer callback, and the [retryWithDifferentFormat] it calls, are the
    ones of this render. *)
Definition firstRender : Render :=
  {| seenBuffering := true; seenInRetryFlow := false; seenFormat := M3u8;
     seenAttempt := 0 |}.

(** The latest render: the handlers passed to the [Video] element and to
    the format button are the ones of this render. *)
Definition latestRender (s : State) : Render :=
  {| seenBuffering := isBuffering s; seenInRetryFlow := isInRetryFlow s;
     seenFormat := currentFormat s; seenAttempt := playbackAttempt s |}.

(** The state after mount. *)
Definition mount (uri : string) : State :=
  {| isBuffering := true; isInRetryFlow := false; currentFormat := M3u8;
     playbackAttempt := 0; sourceUri := uri; videoMounted := true;
     loadTimeout := true; unloading := []; reloadTimers := 0; loads := [];
     reported := [] |}.

(** [const formats = ['m3u8', 'mp4', 'ts']] *)
Definition formats : list Format := [M3u8; Mp4; Ts].

(** [l.indexOf(x)] *)
Fixpoint indexOf (l : list Format) (x : Format) : Z :=
  match l with
  | [] => -1
  | y :: l' =>
      if Format_eqb y x then 0
      else let i := indexOf l' x in if (i <? 0)%Z then -1 else i + 1
  end%Z.

(** [formats[(currentIndex + 1) % formats.length]] *)
Definition nextFormat (current : Format) : Format :=
  let currentIndex := indexOf formats current in
  nth (Z.to_nat (Z.rem (currentIndex + 1) (Z.of_nat (List.length formats))))
      formats M3u8.

(** [s.endsWith(suffix)] *)
Definition endsWith (s suffix : string) : bool :=
  (String.length suffix <=? String.length s)%nat &&
  String.eqb
    (substring (String.length s - String.length suffix)
               (String.length suffix) s)
    suffix.

(** [s.replace(/\.(e1|e2|...)$/, replacement)] *)
Fixpoint replaceExtension (exts : list string) (s replacement : string)
    : string :=
  match exts with
  | [] => s
  | e :: exts' =>
      if endsWith s ("." +:+ e)
      then substring 0 (String.length s - String.length ("." +:+ e)) s
           +:+ replacement
      else replaceExtension exts' s replacement
  end.

(** The [newUrl] computed by [retryWithDifferentFormat]. *)
Definition newUrl (api : Credentials) (props : Props) (uri : string)
    (next : Format) : string :=
  match streamType props with
  | LiveStream =>
      replaceExtension ["m3u8"; "ts"] uri
        (match next with Mp4 => ".ts" | _ => "." +:+ formatName next end)
  | Vod =>
      if truthyNum (streamId props)
      then getVodStreamingUrl api (streamId props) next
      else replaceExtension ["m3u8"; "mp4"; "ts"] uri ("." +:+ formatName next)
  | SeriesStream =>
      if truthyNum (streamId props)
      then getSeriesStreamingUrl api (streamId props) next
      else replaceExtension ["m3u8"; "mp4"; "ts"] uri ("." +:+ formatName next)
  end.

(** [retryWithDifferentFormat()] of the render [r], up to the call of
    [unloadAsync()]. *)
Definition retryWithDifferentFormat (api : Credentials) (props : Props)
    (r : Render) (s : State) : State :=
  if seenInRetryFlow r then s
  else
    let next := nextFormat (seenFormat r) in
    let url := newUrl api props (sourceUri s) next in
    {| isBuffering := true; isInRetryFlow := true;
       currentFormat := currentFormat s;
       playbackAttempt := playbackAttempt s; sourceUri := sourceUri s;
       videoMounted := videoMounted s; loadTimeout := loadTimeout s;
       unloading := if videoMounted s then unloading s ++ [(next, url)]
                    else unloading s;
       reloadTimers := reloadTimers s; loads := loads s;
       reported := reported s |}.

(** The callback passed to [unloadAsync().then]. *)
Definition onUnloaded (props : Props) (next : Format) (url : string)
    (s : State) : State :=
  if truthyNum (streamId props) then
    {| isBuffering := isBuffering s; isInRetryFlow := isInRetryFlow s;
       currentFormat := next; playbackAttempt := playbackAttempt s;
       sourceUri := url; videoMounted := videoMounted s;
       loadTimeout := loadTimeout s; unloading := unloading s;
       reloadTimers := S (reloadTimers s); loads := loads s;
       reported := reported s |}
  else
    {| isBuffering := isBuffering s; isInRetryFlow := false;
       currentFormat := currentFormat s;
       playbackAttempt := playbackAttempt s; sourceUri := sourceUri s;
       videoMounted := videoMounted s; loadTimeout := loadTimeout s;
       unloading := unloading s; reloadTimers := reloadTimers s;
       loads := loads s;
       reported :=
         if hasOnError props
         then "Failed to load with all formats. Please try again later."
              :: reported s
         else reported s |}.

(** The callback of the 1 s timer set by [onUnloaded]. *)
Definition onReloadTimer (s : State) : State :=
  {| isBuffering := isBuffering s; isInRetryFlow := false;
     currentFormat := currentFormat s;
     playbackAttempt := if videoMounted s then S (playbackAttempt s)
                        else playbackAttempt s;
     sourceUri := sourceUri s; videoMounted := videoMounted s;
     loadTimeout := loadTimeout s; unloading := unloading s;
     reloadTimers := pred (reloadTimers s);
     loads := if videoMounted s then sourceUri s :: loads s else loads s;
     reported := reported s |}.

(** [handleError(error)] of the render [r]; [msg] is the error when it is
    a string. *)
Definition handleError (api : Credentials) (props : Props) (r : Render)
    (msg : option string) (s : State) : State :=
  if (seenAttempt r <? 2)%nat then retryWithDifferentFormat api props r s
  else if hasOnError props then
    {| isBuffering := isBuffering s; isInRetryFlow := isInRetryFlow s;
       currentFormat := currentFormat s;
       playbackAttempt := playbackAttempt s; sourceUri := sourceUri s;
       videoMounted := videoMounted s; loadTimeout := loadTimeout s;
       unloading := unloading s; reloadTimers := reloadTimers s;
       loads := loads s;
       reported := match msg with
                   | Some m => m
                   | None => "An error occurred during playback"
                   end :: reported s |}
  else s.

(** The state with the load timer no longer pending. *)
Definition clearLoadTimeout (s : State) : State :=
  {| isBuffering := isBuffering s; isInRetryFlow := isInRetryFlow s;
     currentFormat := currentFormat s; playbackAttempt := playbackAttempt s;
     sourceUri := sourceUri s; videoMounted := videoMounted s;
     loadTimeout := false; unloading := unloading s;
     reloadTimers := reloadTimers s; loads := loads s;
     reported := reported s |}.

(** The callback of the 15 s load timer, a closure of the first render. *)
Definition onLoadTimeout (api : Credentials) (props : Props) (s : State)
    : State :=
  let s1 := clearLoadTimeout s in
  if seenBuffering firstRender && (seenAttempt firstRender =? 0)%nat
  then retryWithDifferentFormat api props firstRender s1
  else s1.

(** [onPlaybackStatusUpdate(playbackStatus)], without the position
    checkpoint. *)
Definition onPlaybackStatusUpdate (isLoaded buffering : bool) (s : State)
    : State :=
  if isLoaded then
    {| isBuffering := buffering; isInRetryFlow := isInRetryFlow s;
       currentFormat := currentFormat s;
       playbackAttempt := playbackAttempt s; sourceUri := sourceUri s;
       videoMounted := videoMounted s; loadTimeout := false;
       unloading := unloading s; reloadTimers := reloadTimers s;
       loads := loads s; reported := reported s |}
  else s.

(** Unmounting: the cleanup functions clear the timer, the ref is reset. *)
Definition unmount (s : State) : State :=
  {| isBuffering := isBuffering s; isInRetryFlow := isInRetryFlow s;
     currentFormat := currentFormat s; playbackAttempt := playbackAttempt s;
     sourceUri := sourceUri s; videoMounted := false; loadTimeout := false;
     unloading := unloading s; reloadTimers := reloadTimers s;
     loads := loads s; reported := reported s |}.

Inductive Event :=
| PlaybackError (msg : option string)   (* the [Video] element calls [onError] *)
| LoadTimeout                           (* the 15 s timer fires *)
| Unloaded                              (* the oldest [unloadAsync()] resolves *)
| ReloadTimer                           (* a 1 s timer fires *)
| StatusUpdate (isLoaded buffering : bool)
| PressFormatButton                     (* the format switcher is pressed *)
| ToggleFullscreen                      (* the cleanup of the orientation
                                           effect clears the load timer *)
| Unmount.

(** One turn of the event loop; [None] when the event cannot happen. *)
Definition step (api : Credentials) (props : Props) (ev : Event) (s : State)
    : option State :=
  match ev with
  | PlaybackError msg =>
      if videoMounted s
      then Some (handleError api props (latestRender s) msg s) else None
  | LoadTimeout =>
      if loadTimeout s then Some (onLoadTimeout api props s) else None
  | Unloaded =>
      match unloading s with
      | (next, url) :: rest =>
          Some (onUnloaded props next url
            {| isBuffering := isBuffering s; isInRetryFlow := isInRetryFlow s;
               currentFormat := currentFormat s;
               playbackAttempt := playbackAttempt s;
               sourceUri := sourceUri s; videoMounted := videoMounted s;
               loadTimeout := loadTimeout s; unloading := rest;
               reloadTimers := reloadTimers s; loads := loads s;
               reported := reported s |})
      | [] => None
      end
  | ReloadTimer =>
      if (0 <? reloadTimers s)%nat then Some (onReloadTimer s) else None
  | StatusUpdate isLoaded buffering =>
      if videoMounted s
      then Some (onPlaybackStatusUpdate isLoaded buffering s) else None
  | PressFormatButton =>
      if videoMounted s && negb (isInRetryFlow s)
      then Some (retryWithDifferentFormat api props (latestRender s) s)
      else None
  | ToggleFullscreen =>
      if videoMounted s then Some (clearLoadTimeout s) else None
  | Unmount => if videoMounted s then Some (unmount s) else None
  end.

Fixpoint run (api : Credentials) (props : Props) (evs : list Event)
    (s : State) : option State :=
  match evs with
  | [] => Some s
  | ev :: evs' =>
      match step api props ev s with
      | Some s1 => run api props evs' s1
      | None => None
      end
  end.


(** The events other than the load timer and the format button: the
    retries they lead to are those [handleError] starts. *)
Definition errorDriven (ev : Event) : bool :=
  match ev with
  | LoadTimeout | PressFormatButton => false
  | _ => true
  end.

(** The attempts made and the format switches in progress stay within the
    budget, and at most one switch is in progress, flagged by
    [isInRetryFlow]. *)
Definition withinBudget (s : State) : Prop :=
  (playbackAttempt s + List.length (unloading s) + reloadTimers s ≤ 2)%nat ∧
  (List.length (unloading s) + reloadTimers s ≤ 1)%nat ∧
  (isInRetryFlow s = false → unloading s = [] ∧ reloadTimers s = 0%nat).


End Player.

(** A film and a schedule used in the examples. *)

Module PlayerScenarios.
Import Resolver Player.

Definition film : Props :=
  {| streamId := Some 42%Z; streamType := Vod; hasOnError := true |}.

Definition filmUri : string := "http://tv.example/movie/ann/pw/42.m3u8".

(** Two playback errors, each answered by a format switch, within the
    fifteen seconds of the load timer; then the timer fires. *)
Definition twoErrorsThenTimer : list Event :=
  [ PlaybackError None; Unloaded; ReloadTimer;
    PlaybackError None; Unloaded; ReloadTimer;
    LoadTimeout; Unloaded; ReloadTimer ].

End PlayerScenarios.

(** ** Watch history ([HistoryService]) *)

Module History.
Import Keys.

(** ['live' | 'vod' | 'series'] *)
Inductive ItemType := LiveItem | VodItem | SeriesItem.

Definition ItemType_eqb (a b : ItemType) : bool :=
  match a, b with
  | LiveItem, LiveItem | VodItem, VodItem | SeriesItem, SeriesItem => true
  | _, _ => false
  end.

(** [a === b] on an optional number ([None] is [undefined]). *)
Definition optZ_eqb (a b : option Z) : bool :=
  match a, b with
  | Some x, Some y => (x =? y)%Z
  | None, None => true
  | _, _ => false
  end.

Definition HISTORY_STORAGE_KEY : string := "@iptv_player_history".

Definition MAX_HISTORY_ITEMS : nat := 100.

(** [getUserKey()] *)
Definition getUserKey (api : Credentials) : string :=
  if negb (isAuthenticated api) then HISTORY_STORAGE_KEY
  else HISTORY_STORAGE_KEY +:+ ":" +:+ username api +:+ "@" +:+ baseUrl api.

(** [l.slice(0, n)] for an integer [n]: a negative [n] counts from the
    end. *)
Definition slice0 {A : Type} (n : Z) (l : list A) : list A :=
  if (n <? 0)%Z then take (Z.to_nat (Z.of_nat (List.length l) + n)) l
  else take (Z.to_nat n) l.

Section Store.
(** The numbers kept in [position] (seconds, not always whole), with their
    truthiness: [0] and [NaN] are falsy. *)
Context {Num : Type}.
Variable truthy : Num → bool.

(** [WatchHistoryItem]; [None] is a missing field. *)
Record WatchHistoryItem := {
  id : Z;
  type : ItemType;
  name : string;
  stream_icon : option string;
  cover : option string;
  position : option Num;
  timestamp : Z;
  series_id : option Z;
  season : option Z;
  episode_num : option Z
}.

(** What the string stored under the history key is when it is read back:
    the empty string, a text [JSON.parse] throws on, or the array that
    [saveHistory] wrote. *)
Inductive Stored :=
| NoText
| BadText
| Items (history : list WatchHistoryItem).

(** [getHistory()]: [ioOk = false] stands for an exception of [getItem]. *)
Definition getHistory (api : Credentials) (st : gmap string Stored)
    (ioOk : bool) : list WatchHistoryItem :=
  if ioOk then
    match st !! getUserKey api with
    | Some (Items history) => history
    | Some NoText => []
    | Some BadText => []
    | None => []
    end
  else [].

(** [saveHistory(history)]: [ioOk = false] stands for an exception of
    [setItem], which is logged and dropped. *)
Definition saveHistory (api : Credentials) (st : gmap string Stored)
    (ioOk : bool) (history : list WatchHistoryItem) : gmap string Stored :=
  if ioOk then
    <[getUserKey api := Items (take MAX_HISTORY_ITEMS history)]> st
  else st.

(** [{...item, timestamp: now}] *)
Definition stamped (now : Z) (item : WatchHistoryItem) : WatchHistoryItem :=
  {| id := id item; type := type item; name := name item;
     stream_icon := stream_icon item; cover := cover item;
     position := position item; timestamp := now;
     series_id := series_id item; season := season item;
     episode_num := episode_num item |}.

(** The test of the filter in [addToHistory]: [h] is the entry of the same
    stream, or of the same episode for a series. *)
Definition sameEntry (item h : WatchHistoryItem) : bool :=
  (id h =? id item)%Z && ItemType_eqb (type h) (type item) &&
  (negb (ItemType_eqb (type item) SeriesItem) ||
   (optZ_eqb (season h) (season item) &&
    optZ_eqb (episode_num h) (episode_num item))).

(** [addToHistory(item)]; [now] is [Date.now()]. *)
Definition addToHistory (api : Credentials) (readOk writeOk : bool) (now : Z)
    (item : WatchHistoryItem) (st : gmap string Stored) : gmap string Stored :=
  let history := getHistory api st readOk in
  let history := List.filter (λ h, negb (sameEntry item h)) history in
  saveHistory api st writeOk (stamped now item :: history).

(** Is [type === 'series' && (season !== undefined && episode_num !==
    undefined)]? *)
Definition episodeGiven (t : ItemType) (s e : option Z) : bool :=
  ItemType_eqb t SeriesItem && (bool_decide (s ≠ None) && bool_decide (e ≠ None)).

(** The test of [find] in [getPlaybackPosition]. *)
Definition matches (i : Z) (t : ItemType) (s e : option Z)
    (h : WatchHistoryItem) : bool :=
  if negb (id h =? i)%Z || negb (ItemType_eqb (type h) t) then false
  else if episodeGiven t s e
       then optZ_eqb (season h) s && optZ_eqb (episode_num h) e
       else true.

(** The test of the filter in [removeFromHistory]. *)
Definition kept (i : Z) (t : ItemType) (s e : option Z)
    (h : WatchHistoryItem) : bool :=
  if negb (id h =? i)%Z || negb (ItemType_eqb (type h) t) then true
  else if episodeGiven t s e
       then negb (optZ_eqb (season h) s && optZ_eqb (episode_num h) e)
       else false.

(** [removeFromHistory(id, type, season, episode_num)] *)
Definition removeFromHistory (api : Credentials) (readOk writeOk : bool)
    (i : Z) (t : ItemType) (s e : option Z) (st : gmap string Stored)
    : gmap string Stored :=
  let history := getHistory api st readOk in
  saveHistory api st writeOk (List.filter (kept i t s e) history).

(** [getRecentlyWatched(limit)] *)
Definition getRecentlyWatched (api : Credentials) (readOk : bool) (limit : Z)
    (st : gmap string Stored) : list WatchHistoryItem :=
  slice0 limit (getHistory api st readOk).

(** [getWatchedByType(type, limit)] *)
Definition getWatchedByType (api : Credentials) (readOk : bool)
    (t : ItemType) (limit : Z) (st : gmap string Stored)
    : list WatchHistoryItem :=
  slice0 limit
    (List.filter (λ h, ItemType_eqb (type h) t) (getHistory api st readOk)).

(** [item?.position || null]; [None] is [null]. *)
Definition positionOrNull (found : option WatchHistoryItem) : option Num :=
  match found with
  | Some h =>
      match position h with
      | Some p => if truthy p then Some p else None
      | None => None
      end
  | None => None
  end.

(** [getPlaybackPosition(id, type, season, episode_num)] *)
Definition getPlaybackPosition (api : Credentials) (readOk : bool)
    (i : Z) (t : ItemType) (s e : option Z) (st : gmap string Stored)
    : option Num :=
  positionOrNull (List.find (matches i t s e) (getHistory api st readOk)).

(** [clearHistory()] *)
Definition clearHistory (api : Credentials) (writeOk : bool)
    (st : gmap string Stored) : gmap string Stored :=
  saveHistory api st writeOk [].

End Store.

Arguments WatchHistoryItem : clear implicits.
Arguments Stored : clear implicits.

End History.

(** ** Favourites ([FavoritesService]) *)

Module Favorites.
Import Keys.

Definition FAVORITES_STORAGE_KEY : string := "@iptv_player_favorites".

(** [getUserKey()] *)
Definition getUserKey (api : Credentials) : string :=
  if negb (isAuthenticated api) then FAVORITES_STORAGE_KEY
  else FAVORITES_STORAGE_KEY +:+ ":" +:+ username api +:+ "@" +:+ baseUrl api.

(** [FavoriteItem]; [None] is a missing field. *)
Record FavoriteItem := {
  id : Z;
  type : History.ItemType;
  name : string;
  stream_icon : option string;
  cover : option string
}.

(** What the string stored under the favourites key is when it is read
    back: the empty string, a text [JSON.parse] throws on, or the array
    that [saveFavorites] wrote. *)
Inductive Stored :=
| NoText
| BadText
| Items (favorites : list FavoriteItem).

(** [getFavorites()]: [ioOk = false] stands for an exception of
    [getItem]. *)
Definition getFavorites (api : Credentials) (st : gmap string Stored)
    (ioOk : bool) : list FavoriteItem :=
  if ioOk then
    match st !! getUserKey api with
    | Some (Items favorites) => favorites
    | Some NoText => []
    | Some BadText => []
    | None => []
    end
  else [].

(** [saveFavorites(favorites)]: [ioOk = false] stands for an exception of
    [setItem], which is logged and dropped. *)
Definition saveFavorites (api : Credentials) (st : gmap string Stored)
    (ioOk : bool) (favorites : list FavoriteItem) : gmap string Stored :=
  if ioOk then <[getUserKey api := Items favorites]> st else st.

(** [fav.id === id && fav.type === type] *)
Definition isSame (i : Z) (t : History.ItemType) (fav : FavoriteItem) : bool :=
  (id fav =? i)%Z && History.ItemType_eqb (type fav) t.

(** [addFavorite(item)] *)
Definition addFavorite (api : Credentials) (readOk writeOk : bool)
    (item : FavoriteItem) (st : gmap string Stored) : gmap string Stored :=
  let favorites := getFavorites api st readOk in
  let exists_ := existsb (isSame (id item) (type item)) favorites in
  if negb exists_ then saveFavorites api st writeOk (favorites ++ [item])%list
  else st.

(** [removeFavorite(id, type)] *)
Definition removeFavorite (api : Credentials) (readOk writeOk : bool)
    (i : Z) (t : History.ItemType) (st : gmap string Stored)
    : gmap string Stored :=
  let favorites := getFavorites api st readOk in
  saveFavorites api st writeOk
    (List.filter (λ fav, negb (isSame i t fav)) favorites).

(** [isFavorite(id, type)] *)
Definition isFavorite (api : Credentials) (readOk : bool) (i : Z)
    (t : History.ItemType) (st : gmap string Stored) : bool :=
  existsb (isSame i t) (getFavorites api st readOk).

(** [getAllFavorites()] *)
Definition getAllFavorites (api : Credentials) (readOk : bool)
    (st : gmap string Stored) : list FavoriteItem :=
  getFavorites api st readOk.

(** [getFavoritesByType(type)] *)
Definition getFavoritesByType (api : Credentials) (readOk : bool)
    (t : History.ItemType) (st : gmap string Stored) : list FavoriteItem :=
  List.filter (λ fav, History.ItemType_eqb (type fav) t)
    (getFavorites api st readOk).

(** [clearAllFavorites()] *)
Definition clearAllFavorites (api : Credentials) (writeOk : bool)
    (st : gmap string Stored) : gmap string Stored :=
  saveFavorites api st writeOk [].

(** The pair a favourite is identified by. *)
Definition favKey (fav : FavoriteItem) : Z * History.ItemType :=
  (id fav, type fav).

End Favorites.

Module FavoritesScenarios.
Import Keys Identities Favorites.

Definition favChannel : FavoriteItem :=
  {| id := 5; type := History.LiveItem; name := "A channel";
     stream_icon := None; cover := None |}.

Definition favFilm : FavoriteItem :=
  {| id := 42; type := History.VodItem; name := "A film";
     stream_icon := None; cover := Some "film.png" |}.

(** The same id as the channel, another type. *)
Definition favSeries : FavoriteItem :=
  {| id := 5; type := History.SeriesItem; name := "A series";
     stream_icon := None; cover := None |}.

Definition someFavorites : gmap string Stored :=
  {[ getUserKey home := Items [favChannel; favFilm] ]}.

End FavoritesScenarios.

(** ** The player's clock display and position checkpoints ([VideoPlayer]) *)

Module PlayerHistory.
Import Keys Resolver Player History.

(** [s.padStart(2, '0')] *)
Definition padStart2 (s : string) : string :=
  match String.length s with
  | 0 => "00" +:+ s
  | 1 => "0" +:+ s
  | _ => s
  end.

(** [formatTime(millis)] for an integer [millis]: [Math.floor] of a
    quotient is [Z.div], [%] is [Z.rem]. *)
Definition formatTime (millis : Z) : string :=
  if (millis =? 0)%Z then "00:00"
  else
    let totalSeconds := (millis / 1000)%Z in
    let hours := (totalSeconds / 3600)%Z in
    let minutes := (Z.rem totalSeconds 3600 / 60)%Z in
    let seconds := Z.rem totalSeconds 60 in
    if (hours >? 0)%Z then
      padStart2 (showNumber (Some hours)) +:+ ":" +:+
      padStart2 (showNumber (Some minutes)) +:+ ":" +:+
      padStart2 (showNumber (Some seconds))
    else
      padStart2 (showNumber (Some minutes)) +:+ ":" +:+
      padStart2 (showNumber (Some seconds)).

(** What [formatTime] shows below one hour, from the whole seconds. *)
Definition clockOf (s : Z) : string :=
  padStart2 (showNumber (Some (Z.rem s 3600 / 60)%Z)) +:+ ":" +:+
  padStart2 (showNumber (Some (Z.rem s 60))).

(** Reading a ["MM:SS"] text back as a number of seconds. *)
Definition clockSeconds (s : string) : option Z :=
  match s with
  | String m1 (String m2 (String ":" (String s1 (String s2 EmptyString)))) =>
      match digitOf m1, digitOf m2, digitOf s1, digitOf s2 with
      | Some a, Some b, Some c, Some d =>
          Some ((10 * a + b) * 60 + (10 * c + d))%Z
      | _, _, _, _ => None
      end
  | _ => None
  end.

(** The seconds below one hour. *)
Definition secondsOfAnHour : list Z := map Z.of_nat (seq 0 3600).





Section Checkpoint.
(** The numbers of [position], their truthiness, and
    [positionMillis / 1000]. *)
Context {Num : Type}.
Variable truthy : Num → bool.
Variable toSeconds : Z → Num.





End Checkpoint.

End PlayerHistory.

(** ** The cached getters of [OptimizedXtreamAPI] *)

Module Api.
Import JsString Keys Cache Resolver.

(** [CACHE_DURATIONS] *)
Definition CATEGORIES : Z := 60 * 60 * 1000.
Definition STREAMS : Z := 30 * 60 * 1000.
Definition INFO : Z := 15 * 60 * 1000.

(** [getApiUrl(action, params)]; the values of [params] are given as the
    texts the template prints. *)
Definition getApiUrl (api : Credentials) (action : string)
    (params : list (string * string)) : string :=
  let baseApiUrl :=
    baseUrl api +:+ "/player_api.php?username=" +:+ username api
    +:+ "&password=" +:+ password api in
  let queryParams :=
    String.concat "" (map (λ kv, "&" +:+ fst kv +:+ "=" +:+ snd kv) params) in
  baseApiUrl +:+ "&action=" +:+ action +:+ queryParams.

(** What a getter passes to [fetchWithCache]. *)
Record Request := { reqKey : string; reqUrl : string; reqDuration : Z }.

(** The [params] object of the getters with an optional [categoryId]. *)
Definition categoryParams (categoryId : option string)
    : list (string * string) :=
  match categoryId with
  | Some c => if truthyStr categoryId then [("category_id", c)] else []
  | None => []
  end.

(** [categoryId ? `${stem}cat_${categoryId}` : `${stem}all`] *)
Definition categoryKey (stem : string) (categoryId : option string) : string :=
  match categoryId with
  | Some c => if truthyStr categoryId then stem +:+ "cat_" +:+ c
              else stem +:+ "all"
  | None => stem +:+ "all"
  end.

Definition liveCategoriesRequest (api : Credentials) : Request :=
  {| reqKey := "live_categories";
     reqUrl := getApiUrl api "get_live_categories" [];
     reqDuration := CATEGORIES |}.

Definition liveStreamsRequest (api : Credentials) (categoryId : option string)
    : Request :=
  {| reqKey := categoryKey "live_streams_" categoryId;
     reqUrl := getApiUrl api "get_live_streams" (categoryParams categoryId);
     reqDuration := STREAMS |}.

Definition vodCategoriesRequest (api : Credentials) : Request :=
  {| reqKey := "vod_categories";
     reqUrl := getApiUrl api "get_vod_categories" [];
     reqDuration := CATEGORIES |}.

Definition vodStreamsRequest (api : Credentials) (categoryId : option string)
    : Request :=
  {| reqKey := categoryKey "vod_streams_" categoryId;
     reqUrl := getApiUrl api "get_vod_streams" (categoryParams categoryId);
     reqDuration := STREAMS |}.

Definition vodInfoRequest (api : Credentials) (vodId : Z) : Request :=
  {| reqKey := "vod_info_" +:+ showNumber (Some vodId);
     reqUrl := getApiUrl api "get_vod_info"
                 [("vod_id", showNumber (Some vodId))];
     reqDuration := INFO |}.

Definition seriesCategoriesRequest (api : Credentials) : Request :=
  {| reqKey := "series_categories";
     reqUrl := getApiUrl api "get_series_categories" [];
     reqDuration := CATEGORIES |}.

Definition seriesRequest (api : Credentials) (categoryId : option string)
    : Request :=
  {| reqKey := categoryKey "series_" categoryId;
     reqUrl := getApiUrl api "get_series" (categoryParams categoryId);
     reqDuration := STREAMS |}.

Definition seriesInfoRequest (api : Credentials) (seriesId : Z) : Request :=
  {| reqKey := "series_info_" +:+ showNumber (Some seriesId);
     reqUrl := getApiUrl api "get_series_info"
                 [("series_id", showNumber (Some seriesId))];
     reqDuration := INFO |}.

(** The cache keys of the getters, by the type [clearCache] files them
    under. *)
Inductive getterKey : ClearType → string → Prop :=
| key_liveCategories api : getterKey Live (reqKey (liveCategoriesRequest api))
| key_liveStreams api c : getterKey Live (reqKey (liveStreamsRequest api c))
| key_vodCategories api : getterKey Vod (reqKey (vodCategoriesRequest api))
| key_vodStreams api c : getterKey Vod (reqKey (vodStreamsRequest api c))
| key_vodInfo api n : getterKey Vod (reqKey (vodInfoRequest api n))
| key_seriesCategories api :
    getterKey Series (reqKey (seriesCategoriesRequest api))
| key_series api c : getterKey Series (reqKey (seriesRequest api c))
| key_seriesInfo api n : getterKey Series (reqKey (seriesInfoRequest api n))
| key_any key : getterKey All key.

(** The test [clearCache(type)] filters the stored keys by. *)
Definition removable (type : ClearType) (cachePrefix key : string) : bool :=
  match type with
  | All => startsWith key cachePrefix
  | Live =>
      startsWith key cachePrefix &&
      (includes key "live_categories" || includes key "live_streams")
  | Vod =>
      startsWith key cachePrefix &&
      (includes key "vod_categories" || includes key "vod_streams"
       || includes key "vod_info")
  | Series =>
      startsWith key cachePrefix &&
      (includes key "series_categories" || includes key "series_cat_"
       || includes key "series_info" || includes key "series_all")
  end.

Section Getters.
Context {Data : Type}.
(** Falsiness of a payload, for [data || []] and [data || null]. *)
Variable falsy : Data → bool.

(** The body shared by the getters: [fetchWithCache] inside [try], then
    [data || fallback], and [fallback] from the [catch] block. *)
Definition getter (fallback : Data) (req : Request) (env : Env Data)
    (w : World Data) : Data * World Data :=
  let '(res, w') :=
    fetchWithCache (reqKey req) (reqUrl req) (reqDuration req) env w in
  (match res with
   | Ok d => if falsy d then fallback else d
   | Err _ => fallback
   end, w').

(** The world after [clearCache(type)]. *)
Definition clearCacheIn (type : ClearType) (keysOk removeOk : bool)
    (w : World Data) : World Data :=
  {| creds := creds w; abortControllers := abortControllers w;
     storage := clearCache (creds w) type keysOk removeOk (storage w);
     calls := calls w; aborted := aborted w; writes := writes w;
     requests := requests w |}.

End Getters.

End Api.

(** ** The [useCachedData] hook *)

Module Hook.
Import Keys Cache.

Section LoadData.
Context {Data : Type}.

(** The state of the hook: [data], [isLoading], [error]. *)
Record HookState := {
  hookData : option Data;
  isLoading : bool;
  hookError : option string
}.

(** What the environment answers to one run of [loadData]: whether
    [getItem] and [setItem] succeed, the message of the exception when one
    of them, or [JSON.parse], throws, the clock at the expiry test and at
    the write, the outcome of [fetchFunction] (a rejection with an [Error]
    of the given message), and the value of [isMounted] when the cache has
    been read, when the fetch has returned, and when [setItem] has
    returned. *)
Record HookEnv := {
  readOk : bool;
  writeOk : bool;
  thrown : string;
  now : Z;
  tWrite : Z;
  fetched : FetchOutcome Data;
  mountedAtRead : bool;
  mountedAtFetch : bool;
  mountedAtWrite : bool
}.

(** What a run of [loadData] leaves: the state, the storage, and how often
    [fetchFunction] was called. *)
Record Outcome := {
  state : HookState;
  stored : gmap string (Item Data);
  fetches : nat
}.

(** [Date.now() - timestamp > expireTime] *)
Definition isExpired (now timestamp expireTime : Z) : bool :=
  (now - timestamp >? expireTime)%Z.

(** The [catch] and [finally] blocks after an exception with message
    [msg], from the state [s], with [isMounted] being [mounted]. *)
Definition failed (mounted : bool) (msg : string) (s : HookState) : HookState :=
  if mounted
  then {| hookData := hookData s; isLoading := false; hookError := Some msg |}
  else s.

(** The [finally] block alone. *)
Definition finished (mounted : bool) (s : HookState) : HookState :=
  if mounted
  then {| hookData := hookData s; isLoading := false;
          hookError := hookError s |}
  else s.

(** From [await fetchFunction()] on. *)
Definition fetchFresh (api : Credentials) (key : string) (env : HookEnv)
    (s : HookState) (st : gmap string (Item Data)) : Outcome :=
  match fetched env with
  | Failure msg =>
      {| state := failed (mountedAtFetch env) msg s; stored := st;
         fetches := 1 |}
  | Response freshData =>
      if mountedAtFetch env then
        let s1 := {| hookData := Some freshData; isLoading := isLoading s;
                     hookError := hookError s |} in
        if writeOk env then
          {| state := finished (mountedAtWrite env) s1;
             stored := <[hookGetCacheKey api key :=
                           Entry freshData (tWrite env) None]> st;
             fetches := 1 |}
        else {| state := failed (mountedAtWrite env) (thrown env) s1;
                stored := st; fetches := 1 |}
      else {| state := s; stored := st; fetches := 1 |}
  end.

(** [loadData()], from the state [prev] of the hook. *)
Definition loadData (api : Credentials) (key : string) (expireTime : Z)
    (env : HookEnv) (prev : HookState) (st : gmap string (Item Data))
    : Outcome :=
  let s := {| hookData := hookData prev; isLoading := true;
              hookError := None |} in
  if readOk env then
    match st !! hookGetCacheKey api key with
    | Some Garbage =>
        {| state := failed (mountedAtRead env) (thrown env) s; stored := st;
           fetches := 0 |}
    | Some (Entry storedData timestamp _) =>
        if negb (isExpired (now env) timestamp expireTime)
           && mountedAtRead env
        then {| state := {| hookData := Some storedData; isLoading := false;
                            hookError := None |};
                stored := st; fetches := 0 |}
        else fetchFresh api key env s st
    | Some Blank => fetchFresh api key env s st
    | None => fetchFresh api key env s st
    end
  else {| state := failed (mountedAtRead env) (thrown env) s; stored := st;
          fetches := 0 |}.

End LoadData.

Arguments HookState : clear implicits.
Arguments HookEnv : clear implicits.
Arguments Outcome : clear implicits.

End Hook.

(** ** Processing an array in chunks ([processArrayInChunks]) *)

Module Chunks.

(** [l.slice(start, stop)] for integers: a negative index counts from the
    end, an index past the end is the end. *)
Definition slice {A : Type} (start stop : Z) (l : list A) : list A :=
  let len := Z.of_nat (List.length l) in
  let from := if (start <? 0)%Z then Z.max (len + start) 0
              else Z.min start len in
  let to := if (stop <? 0)%Z then Z.max (len + stop) 0 else Z.min stop len in
  take (Z.to_nat (to - from)) (drop (Z.to_nat from) l).

(** [processNextChunk()], with [index] and [result] as they are when it is
    called. [fuel] is the number of timer callbacks that are still allowed
    to run; [None] means that the promise is still pending when they are
    used up. *)
Fixpoint processNextChunk {T R : Type} (fuel : nat) (array : list T)
    (processItem : T → R) (chunkSize : Z) (index : Z) (result : list R)
    : option (list R) :=
  let chunk := slice index (index + chunkSize) array in
  let index' := (index + chunkSize)%Z in
  let result' := (result ++ map processItem chunk)%list in
  if (index' <? Z.of_nat (List.length array))%Z then
    match fuel with
    | O => None
    | S fuel' =>
        processNextChunk fuel' array processItem chunkSize index' result'
    end
  else Some result'.

(** [processArrayInChunks(array, processItem, chunkSize)] *)
Definition processArrayInChunks {T R : Type} (fuel : nat) (array : list T)
    (processItem : T → R) (chunkSize : Z) : option (list R) :=
  processNextChunk fuel array processItem chunkSize 0 [].

End Chunks.

(** Values used in the examples of the history, the player, the getters,
    the hook and the chunked processing. *)

Module MoreScenarios.
Import Keys Identities Cache CacheScenarios Resolver Player PlayerScenarios
  History PlayerHistory Api Hook.

(** A number of seconds, kept as the milliseconds it is a thousandth of. *)
Record Seconds := { millis : Z }.

Definition secondsOf (ms : Z) : Seconds := {| millis := ms |}.

Definition nonZero (p : Seconds) : bool := negb (millis p =? 0)%Z.

Definition watchedFilm : WatchHistoryItem Seconds :=
  {| id := 42; type := VodItem; name := "A film"; stream_icon := None;
     cover := None; position := Some (secondsOf 65000); timestamp := 1000;
     series_id := None; season := None; episode_num := None |}.

Definition watchedEpisode : WatchHistoryItem Seconds :=
  {| id := 7; type := SeriesItem; name := "An episode"; stream_icon := None;
     cover := None; position := None; timestamp := 2000;
     series_id := Some 7%Z; season := Some 1%Z; episode_num := Some 3%Z |}.

Definition someHistory : gmap string (Stored Seconds) :=
  {[ getUserKey home := Items [watchedEpisode; watchedFilm] ]}.

Definition corruptHistory : gmap string (Stored Seconds) :=
  {[ getUserKey home := BadText ]}.






(** Two errors answered by a retry, then a third error. *)
Definition threeErrors : list Player.Event :=
  [ PlaybackError None; Unloaded; ReloadTimer;
    PlaybackError None; Unloaded; ReloadTimer;
    PlaybackError (Some "decoder failed") ].

(** The player with a format switch under way. *)
Definition switching : Player.State :=
  handleError home film (latestRender (mount filmUri)) None (mount filmUri).

(** A storage with an entry of the live streams of category 5. *)
Definition liveStorage : gmap string (Item string) :=
  {[ getCacheKey home (reqKey (liveStreamsRequest home (Some "5")))
     := staleEntry ]}.

(** A call that has its response and is not yet resumed. *)
Definition answeredCall : Call string :=
  {| callKey := "live_categories"; callUrl := "u";
     callDuration := 3600000;
     readKey := getCacheKey home "live_categories";
     pc := FetchSettled None (Response "[1]") |}.

(** The first call has its response; then the user is changed. *)
Definition answeredThenSwitched : World string :=
  {| creds := dan; abortControllers := ∅; storage := ∅;
     calls := [ answeredCall ];
     aborted := [0%nat]; writes := []; requests := [(0%nat, "u")] |}.

Definition hookStart : HookState string :=
  {| hookData := None; isLoading := true; hookError := None |}.

Definition hookEnv (readOk writeOk : bool) (now : Z)
    (fetched : FetchOutcome string) : HookEnv string :=
  {| Hook.readOk := readOk; Hook.writeOk := writeOk;
     thrown := "storage failed"; now := now; tWrite := now;
     fetched := fetched; mountedAtRead := true; mountedAtFetch := true;
     mountedAtWrite := true |}.

Definition hookStorage : gmap string (Item string) :=
  {[ hookGetCacheKey home "vod_streams_all" := Entry "[1]" 0 None ]}.

End MoreScenarios.

(** * Properties *)

(** ** Strings *)

Module JsStringFacts.
Import JsString.

Lemma app_cancel_l (p a b : string) : p +:+ a = p +:+ b → a = b.
Proof.
  induction p as [|c p IH]; cbn; [done|].
  intros H. injection H as H. by apply IH.
Qed.



(** Splitting at the first occurrence of a separator is unambiguous. *)
Lemma split_first (c : ascii) (u1 u2 r1 r2 : string) :
  hasChar c u1 = false → hasChar c u2 = false →
  u1 +:+ String c r1 = u2 +:+ String c r2 → u1 = u2 ∧ r1 = r2.
Proof.
  revert u2. induction u1 as [|a u1 IH]; intros [|b u2]; cbn.
  - intros _ _ H. by injection H as ->.
  - intros _ Hb H. injection H as <- _. by rewrite Ascii.eqb_refl in Hb.
  - intros Ha _ H. injection H as -> _. by rewrite Ascii.eqb_refl in Ha.
  - intros Ha Hb H. injection H as -> H.
    destruct (Ascii.eqb b c); [done|].
    destruct (IH u2 Ha Hb H) as [-> ->]. done.
Qed.


Lemma startsWith_app (p r : string) : startsWith (p +:+ r) p = true.
Proof.
  unfold startsWith. induction p as [|c p IH]; cbn.
  - by destruct r.
  - destruct (ascii_dec c c); [apply IH|done].
Qed.

Lemma startsWith_inv (s p : string) :
  startsWith s p = true → ∃ r, s = p +:+ r.
Proof.
  unfold startsWith. revert s. induction p as [|c p IH]; intros s H.
  - by exists s.
  - destruct s as [|d s]; cbn in H; [done|].
    destruct (ascii_dec c d) as [->|]; [|done].
    destruct (IH s H) as [r ->]. by exists r.
Qed.

Lemma app_assoc' (a b c : string) : (a +:+ b) +:+ c = a +:+ (b +:+ c).
Proof. induction a as [|x a IH]; simpl; [done|by rewrite IH]. Qed.


Lemma app_nonempty (a b : string) (c : ascii) : a +:+ String c b ≠ "".
Proof. by destruct a. Qed.

End JsStringFacts.

(** ** Namespace keys *)

Module KeysFacts.
Import JsString JsStringFacts Keys Identities.


Lemma getCacheKey_prefix (api : Credentials) (key : string) :
  getCacheKey api key = cachePrefix api +:+ key.
Proof.
  unfold getCacheKey, cachePrefix. by rewrite !app_assoc'.
Qed.

(** Equal keys of two identities whose usernames have no ['@'] come from
    the same username and agree after it. *)
Lemma getCacheKey_username (a b : Credentials) (k1 k2 : string) :
  hasChar "@" (username a) = false → hasChar "@" (username b) = false →
  getCacheKey a k1 = getCacheKey b k2 →
  username a = username b ∧ baseUrl a +:+ ":" +:+ k1 = baseUrl b +:+ ":" +:+ k2.
Proof.
  intros Ha Hb H. unfold getCacheKey in H.
  apply (app_cancel_l "cache:") in H.
  by apply (split_first "@") in H.
Qed.






End KeysFacts.

(** ** One call of [fetchWithCache] *)

Module CacheFacts.
Import JsString JsStringFacts Keys Identities Cache CacheScenarios.

Section Sequential.
Context {Data : Type}.
Implicit Types (w : World Data) (env : Env Data) (st : gmap string (Item Data)).

Lemma creds_startFetch i key url w : creds (startFetch i key url w) = creds w.
Proof. unfold startFetch. by destruct (abortControllers w !! key). Qed.

Lemma storage_startFetch i key url w :
  storage (startFetch i key url w) = storage w.
Proof. unfold startFetch. by destruct (abortControllers w !! key). Qed.

Lemma requests_startFetch i key url w :
  requests (startFetch i key url w) = (i, url) :: requests w.
Proof. unfold startFetch. by destruct (abortControllers w !! key). Qed.


(** A valid entry: line 119 returns it and nothing else happens. *)
Lemma fetchWithCache_hit key url d env w v :
  getFromCache (creds w) (storage w) (readOk env) (tLookup env) key
  = Some {| data := v; isValid := true |} →
  fetchWithCache key url d env w = (Ok v, w).
Proof. intros H. unfold fetchWithCache. by rewrite H. Qed.

(** No valid entry: the request is started, and the call ends by the
    [return response] of line 143 or in the [catch] block. *)
Lemma fetchWithCache_miss key url d env w :
  servedFromCache key env w = false →
  fetchWithCache key url d env w =
    let cached :=
      getFromCache (creds w) (storage w) (readOk env) (tLookup env) key in
    let i := List.length (calls w) in
    let w1 := startFetch i key url w in
    match net env with
    | Response r =>
        (Ok r, release key
                 (commit i (getCacheKey (creds w) key)
                         (cacheData r (tSave env) d) (writeOk env) w1))
    | Failure e =>
        (match cached with Some c => Ok (data c) | None => Err e end,
         release key w1)
    end.
Proof.
  unfold servedFromCache, fetchWithCache. cbv zeta.
  rewrite creds_startFetch.
  by destruct (getFromCache _ _ _ _ _) as [[v [|]]|].
Qed.

Lemma lookup_entry st ck v ts e now :
  st !! ck = Some (Entry v ts e) →
  readCache st ck true now = Some {| data := v; isValid := stillValid e now |}.
Proof. unfold readCache. by intros ->. Qed.

Lemma stillValid_before e now : (now < e)%Z → stillValid (Some e) now = true.
Proof. simpl. lia. Qed.

Lemma stillValid_after e now : (e ≤ now)%Z → stillValid (Some e) now = false.
Proof. simpl. lia. Qed.

Lemma storage_release key w : storage (release key w) = storage w.
Proof. done. Qed.

Lemma creds_commit i ck entry ok w : creds (commit i ck entry ok w) = creds w.
Proof. unfold commit. by destruct ok. Qed.

(** The write a call commits is the one [saveToCache] describes. *)
Lemma storage_commit i key d now duration ok w :
  storage (commit i (getCacheKey (creds w) key) (cacheData d now duration)
                  ok w)
  = saveToCache (creds w) (storage w) ok now key d duration.
Proof. unfold commit, saveToCache. by destruct ok. Qed.

Lemma requests_commit i ck entry ok w :
  requests (commit i ck entry ok w) = requests w.
Proof. unfold commit. by destruct ok. Qed.

(** C1: a cache entry whose [expiresAt] is still ahead is returned as it
    is, with no request and no other effect; and when a call is not served
    from the cache, the network answers and the write succeeds, the entry
    stored expires at the clock of the save plus the freshness duration, so
    that a later call before that instant returns the stored response with
    no request, and a later call at or after it sends a new request. *)
Theorem fetchWithCache_freshness (key url url' : string) (d d' : Z)
    (env env' : Env Data) (w : World Data) :
  (∀ v ts e,
     readOk env = true →
     storage w !! getCacheKey (creds w) key = Some (Entry v ts (Some e)) →
     (tLookup env < e)%Z →
     fetchWithCache key url d env w = (Ok v, w)) ∧
  (∀ r,
     servedFromCache key env w = false →
     net env = Response r → writeOk env = true →
     let w' := snd (fetchWithCache key url d env w) in
     fst (fetchWithCache key url d env w) = Ok r ∧
     requests w' = (List.length (calls w), url) :: requests w ∧
     storage w' !! getCacheKey (creds w) key
     = Some (Entry r (tSave env) (Some (tSave env + d)%Z)) ∧
     (readOk env' = true → (tLookup env' < tSave env + d)%Z →
      fetchWithCache key url' d' env' w' = (Ok r, w')) ∧
     ((tSave env + d ≤ tLookup env')%Z →
      requests (snd (fetchWithCache key url' d' env' w'))
      = (List.length (calls w'), url') :: requests w')).
Proof.
  split.
  - intros v ts e Hok Hst Hlt. apply fetchWithCache_hit.
    unfold getFromCache. rewrite Hok, (lookup_entry _ _ _ _ _ _ Hst).
    by rewrite stillValid_before.
  - intros r Hmiss Hnet Hw. rewrite (fetchWithCache_miss _ _ _ _ _ Hmiss).
    cbv zeta. rewrite Hnet, Hw. cbn [fst snd].
    set (i := List.length (calls w)).
    set (w' := release key (commit i _ _ true (startFetch i key url w))).
    assert (Hcreds : creds w' = creds w) by apply creds_startFetch.
    assert (Hst : storage w' !! getCacheKey (creds w) key
                  = Some (Entry r (tSave env) (Some (tSave env + d)%Z))).
    { subst w'. simpl. apply lookup_insert_eq. }
    split; [done|]. split; [apply requests_startFetch|].
    split; [done|]. split.
    + intros Hok Hlt. apply fetchWithCache_hit.
      unfold getFromCache. rewrite Hcreds, Hok.
      rewrite (lookup_entry _ _ _ _ _ _ Hst).
      by rewrite stillValid_before.
    + intros Hge.
      assert (Hmiss' : servedFromCache key env' w' = false).
      { unfold servedFromCache, getFromCache. rewrite Hcreds.
        destruct (readOk env'); [|done].
        rewrite (lookup_entry _ _ _ _ _ _ Hst). simpl. lia. }
      rewrite (fetchWithCache_miss _ _ _ _ _ Hmiss'). cbv zeta.
      destruct (net env'); cbn [fst snd]; unfold release; cbn [requests];
        rewrite ?requests_commit; apply requests_startFetch.
Qed.

(** C4: when the request fails, a call that found a stale entry returns
    the value of that entry; a call that found no entry ends with the
    error of the request. *)
Theorem fetchWithCache_fallback (key url : string) (d : Z) (env : Env Data)
    (w : World Data) (e : string) :
  net env = Failure e →
  (∀ v ts eo,
     readOk env = true →
     storage w !! getCacheKey (creds w) key = Some (Entry v ts eo) →
     stillValid eo (tLookup env) = false →
     fst (fetchWithCache key url d env w) = Ok v) ∧
  (storage w !! getCacheKey (creds w) key = None →
   fst (fetchWithCache key url d env w) = Err e).
Proof.
  intros Hnet. split.
  - intros v ts eo Hok Hst Hstale.
    assert (Hget : getFromCache (creds w) (storage w) (readOk env)
                     (tLookup env) key
                   = Some {| data := v; isValid := false |}).
    { unfold getFromCache. rewrite Hok, (lookup_entry _ _ _ _ _ _ Hst).
      by rewrite Hstale. }
    rewrite fetchWithCache_miss; [|unfold servedFromCache; by rewrite Hget].
    cbv zeta. by rewrite Hnet, Hget.
  - intros Hnone.
    assert (Hget : getFromCache (creds w) (storage w) (readOk env)
                     (tLookup env) key = None).
    { unfold getFromCache, readCache. rewrite Hnone. by destruct (readOk env). }
    rewrite fetchWithCache_miss; [|unfold servedFromCache; by rewrite Hget].
    cbv zeta. by rewrite Hnet, Hget.
Qed.

(** C9: a failed storage read is a miss: the call behaves as when no entry
    is stored, it sends the request and ends with what the request gives;
    and a call that got a response returns it whether the storage write
    succeeds or fails, a failed write leaving the storage as it was. *)
Theorem cache_failures_fail_open (key url : string) (d : Z) (env : Env Data)
    (w : World Data) :
  (readOk env = false ∨ storage w !! getCacheKey (creds w) key = None →
   fst (fetchWithCache key url d env w)
   = match net env with Response r => Ok r | Failure e => Err e end ∧
   requests (snd (fetchWithCache key url d env w))
   = (List.length (calls w), url) :: requests w) ∧
  (∀ r, servedFromCache key env w = false → net env = Response r →
        fst (fetchWithCache key url d env w) = Ok r ∧
        (writeOk env = false →
         storage (snd (fetchWithCache key url d env w)) = storage w)).
Proof.
  split.
  - intros Hmiss.
    assert (Hget : getFromCache (creds w) (storage w) (readOk env)
                     (tLookup env) key = None).
    { unfold getFromCache, readCache.
      destruct Hmiss as [->| ->]; [done|by destruct (readOk env)]. }
    rewrite fetchWithCache_miss; [|unfold servedFromCache; by rewrite Hget].
    cbv zeta. rewrite Hget.
    destruct (net env); cbn [fst snd]; unfold release; cbn [requests];
      rewrite ?requests_commit, requests_startFetch; done.
  - intros r Hmiss Hnet. rewrite (fetchWithCache_miss _ _ _ _ _ Hmiss).
    cbv zeta. rewrite Hnet. cbn [fst snd]. split; [done|].
    intros ->. unfold commit, release. cbn [storage].
    apply storage_startFetch.
Qed.

End Sequential.

(** ** Overlapping calls *)

Section Machine.
Context {Data : Type}.
Implicit Types (w : World Data) (c : Call Data) (ev : Event Data).

Lemma rejectPending_notPending c : notPending c → rejectPending c = c.
Proof.
  unfold rejectPending, notPending. intros H.
  destruct (pc c) eqn:E; try done. by destruct (H cached).
Qed.

Lemma calls_abort j w i c :
  calls w !! i = Some c → notPending c → calls (abort j w) !! i = Some c.
Proof.
  intros Hi Hc. simpl. destruct (decide (j = i)) as [->|Hne].
  - rewrite list_lookup_alter_eq, Hi. simpl. by rewrite rejectPending_notPending.
  - by rewrite list_lookup_alter_ne.
Qed.

Lemma writes_abort j w : writes (abort j w) = writes w.
Proof. done. Qed.



Lemma calls_startFetch j key url w i c :
  calls w !! i = Some c → notPending c →
  calls (startFetch j key url w) !! i = Some c.
Proof.
  intros Hi Hc. unfold startFetch.
  destruct (abortControllers w !! key); simpl; [|done].
  by apply (calls_abort _ w).
Qed.


Lemma calls_setPc_eq i p w c :
  calls w !! i = Some c → calls (setPc i p w) !! i = Some (withPc p c).
Proof. intros Hi. simpl. by rewrite list_lookup_alter_eq, Hi. Qed.









End Machine.

(** ** One call on the event loop *)

Section Link.
Context {Data : Type}.
Implicit Types (w : World Data) (env : Env Data).

Lemma agree_setPc i p w w' : agree w w' → agree (setPc i p w) w'.
Proof. done. Qed.

Lemma agree_startFetch i key url w w' :
  agree w w' → agree (startFetch i key url w) (startFetch i key url w').
Proof.
  intros (H1 & H2 & H3 & H4 & H5 & H6). unfold startFetch. rewrite H2.
  destruct (abortControllers w' !! key); unfold agree; simpl;
    by rewrite H1, H2, H3, H4, H5, H6.
Qed.

Lemma agree_release key w w' :
  agree w w' → agree (release key w) (release key w').
Proof.
  intros (H1 & H2 & H3 & H4 & H5 & H6). unfold agree. simpl.
  by rewrite H1, H2, H3, H4, H5, H6.
Qed.

Lemma agree_commit i ck entry ok w w' :
  agree w w' → agree (commit i ck entry ok w) (commit i ck entry ok w').
Proof.
  intros (H1 & H2 & H3 & H4 & H5 & H6). unfold agree, commit.
  destruct ok; simpl; by rewrite ?H1, ?H2, ?H3, ?H4, ?H5, ?H6.
Qed.

(** [fetchWithCache] is what the event loop does when it runs the turns of
    one call with no other call in between. *)
Lemma fetchWithCache_run key url d env w :
  ∃ w' c,
    run (schedule key url d env w) w = Some w' ∧
    calls w' !! List.length (calls w) = Some c ∧
    pc c = Done (fst (fetchWithCache key url d env w)) ∧
    agree w' (snd (fetchWithCache key url d env w)).
Proof.
  set (i := List.length (calls w)).
  set (c0 := ({| callKey := key; callUrl := url; callDuration := d;
                 readKey := getCacheKey (creds w) key; pc := AwaitGet |}
              : Call Data)).
  set (w0 := {| creds := creds w; abortControllers := abortControllers w;
                storage := storage w; calls := calls w ++ [c0];
                aborted := aborted w; writes := writes w;
                requests := requests w |} : World Data).
  assert (Hc0 : calls w0 !! i = Some c0) by apply list_lookup_middle, eq_refl.
  assert (Hnp : notPending c0) by done.
  assert (Hag : agree w0 w) by done.
  unfold schedule. fold i. cbn [run step]. fold c0 w0.
  rewrite Hc0. cbn [pc c0].
  destruct (servedFromCache key env w) eqn:Hserved.
  - unfold servedFromCache, getFromCache in Hserved.
    destruct (readCache (storage w) _ _ _) as [[v b]|] eqn:Hread; [|done].
    simpl in Hserved. subst b.
    rewrite (fetchWithCache_hit key url d env w v Hread).
    unfold afterGet. cbn [readKey c0 storage w0]. rewrite Hread.
    eexists _, _. split; [reflexivity|].
    split; [by apply calls_setPc_eq|]. by split.
  - rewrite (fetchWithCache_miss _ _ _ _ _ Hserved). cbv zeta. fold i.
    unfold servedFromCache, getFromCache in Hserved.
    unfold afterGet. cbn [readKey c0 storage w0 callKey callUrl].
    unfold getFromCache.
    set (cached := readCache (storage w) _ _ _) in *.
    assert (Hsel : match cached with
                   | Some {| data := v; isValid := true |} =>
                       (Done (Ok v), w0)
                   | _ => (AwaitFetch cached, startFetch i key url w0)
                   end = (AwaitFetch cached, startFetch i key url w0)).
    { destruct cached as [[v [|]]|]; done. }
    rewrite Hsel. clear Hsel.
    set (w1 := startFetch i key url w0).
    assert (Hag1 : agree w1 (startFetch i key url w))
      by by apply agree_startFetch.
    assert (Hc1 : calls w1 !! i = Some c0) by by apply calls_startFetch.
    cbn [run step].
    rewrite (calls_setPc_eq _ _ _ _ Hc1). cbn [pc withPc].
    set (c1 := withPc (AwaitFetch cached) c0).
    assert (Hc2 : calls (setPc i (AwaitFetch cached) w1) !! i = Some c1)
      by by apply calls_setPc_eq.
    rewrite (calls_setPc_eq _ _ _ _ Hc2). cbn [pc withPc].
    set (w2 := setPc i (FetchSettled cached (net env)) _).
    assert (Hag2 : agree w2 (startFetch i key url w)) by done.
    assert (Hc3 : calls w2 !! i
                  = Some (withPc (FetchSettled cached (net env)) c1))
      by by apply calls_setPc_eq.
    unfold afterFetch. cbn [callKey callDuration withPc c1 c0].
    destruct (net env) as [r|e].
    + cbn [run step].
      rewrite (calls_setPc_eq _ _ _ _ Hc3). cbn [pc withPc].
      unfold afterSave. cbn [callKey withPc].
      eexists _, _. split; [reflexivity|]. split.
      * apply calls_setPc_eq. unfold release. cbn [calls].
        unfold commit. destruct (writeOk env); cbn [calls];
          by apply calls_setPc_eq.
      * split; [done|]. cbn [snd]. apply agree_setPc, agree_release.
        replace (creds w2) with (creds w)
          by (symmetry; apply (creds_startFetch i key url w0)).
        by apply agree_commit, agree_setPc.
    + eexists _, _. split; [reflexivity|]. split.
      * apply calls_setPc_eq. unfold release. cbn [calls]. exact Hc3.
      * split; [done|]. cbn [snd]. by apply agree_setPc, agree_release.
Qed.
End Link.

(** ** [clearCache] *)

Section Clear.
Context {Data : Type}.
Implicit Types (st : gmap string (Item Data)).

Lemma keysToRemove_prefix type p keys k :
  In k (keysToRemove type p keys) → startsWith k p = true.
Proof.
  destruct type; simpl; rewrite filter_In; intros [_ H]; [done|..];
    by apply andb_prop in H as [H _].
Qed.

Lemma multiRemove_other keys st k :
  ¬ In k keys → multiRemove keys st !! k = st !! k.
Proof.
  unfold multiRemove. induction keys as [|x keys IH]; [done|].
  intros Hk. simpl. rewrite lookup_delete_ne.
  - apply IH. intros H. apply Hk. by right.
  - intros ->. apply Hk. by left.
Qed.

Lemma clearCache_other api type keysOk removeOk st k :
  startsWith k (cachePrefix api) = false →
  @clearCache Data api type keysOk removeOk st !! k = st !! k.
Proof.
  intros Hk. unfold clearCache.
  destruct keysOk; [|done]. destruct (_ <? _)%nat; [|done].
  destruct removeOk; [|done]. apply multiRemove_other.
  intros Hin. apply keysToRemove_prefix in Hin. congruence.
Qed.

(** A key of an identity with another username does not start with the
    prefix of the active identity, when neither username has an ['@']. *)
Lemma other_username_not_prefixed (api other : Credentials) (key : string) :
  hasChar "@" (username api) = false → hasChar "@" (username other) = false →
  username other ≠ username api →
  startsWith (getCacheKey other key) (cachePrefix api) = false.
Proof.
  intros Ha Ho Hne.
  destruct (startsWith _ _) eqn:E; [|done].
  apply startsWith_inv in E as [r E].
  rewrite <- KeysFacts.getCacheKey_prefix in E.
  by apply KeysFacts.getCacheKey_username in E as [E _].
Qed.

(** C10, amended: whatever the clear type, and whether the storage calls
    succeed or fail, [clearCache] leaves every entry whose key does not
    start with the prefix of the active identity as it is; so the entries
    of an identity with another username are unchanged when neither
    username contains ['@']. *)
Theorem clearCache_frame (api other : Credentials) (type : ClearType)
    (keysOk removeOk : bool) (st : gmap string (Item Data)) :
  (∀ k, startsWith k (cachePrefix api) = false →
        clearCache api type keysOk removeOk st !! k = st !! k) ∧
  (hasChar "@" (username api) = false →
   hasChar "@" (username other) = false →
   username other ≠ username api →
   ∀ key, clearCache api type keysOk removeOk st !! getCacheKey other key
          = st !! getCacheKey other key).
Proof.
  split.
  - intros k Hk. by apply clearCache_other.
  - intros Ha Ho Hne key. apply clearCache_other.
    by apply other_username_not_prefixed.
Qed.

End Clear.

(** ** Concrete runs *)

(** The scenario of the specification: a call at [t = 0] with a freshness
    of thirty minutes, then calls at ten and at thirty-one minutes. *)
Lemma fetchWithCache_freshness_witness :
  let w' := snd (fetchWithCache "vod_streams_all" "u" halfHour (netOk 0)
                   emptyWorld) in
  storage w' !! getCacheKey home "vod_streams_all"
  = Some (Entry "[1,2]" 0 (Some halfHour)) ∧
  fetchWithCache "vod_streams_all" "u" halfHour (netDown (minutes 10)) w'
  = (Ok "[1,2]", w') ∧
  List.length
    (requests (snd (fetchWithCache "vod_streams_all" "u" halfHour
                      (netOk (minutes 31)) w'))) = 2%nat.
Proof.
  destruct (fetchWithCache_freshness "vod_streams_all" "u" "u" halfHour
              halfHour (netOk 0) (netDown (minutes 10)) emptyWorld)
    as [_ H10].
  destruct (H10 "[1,2]" eq_refl eq_refl eq_refl) as (_ & _ & Hst & Hhit & _).
  destruct (fetchWithCache_freshness "vod_streams_all" "u" "u" halfHour
              halfHour (netOk 0) (netOk (minutes 31)) emptyWorld)
    as [_ H31].
  destruct (H31 "[1,2]" eq_refl eq_refl eq_refl) as (_ & Hreq & _ & _ & Hnew).
  cbv zeta. split; [exact Hst|]. split; [exact (Hhit eq_refl eq_refl)|].
  rewrite (Hnew ltac:(vm_compute; discriminate)). simpl.
  by rewrite Hreq.
Defined.

Lemma fetchWithCache_fallback_witness :
  fst (fetchWithCache "vod_streams_all" "u" halfHour (netDown 5000) staleWorld)
  = Ok "[1]" ∧
  fst (fetchWithCache "vod_streams_all" "u" halfHour (netDown 5000) emptyWorld)
  = Err "Network request failed".
Proof.
  destruct (fetchWithCache_fallback "vod_streams_all" "u" halfHour
              (netDown 5000) staleWorld "Network request failed" eq_refl)
    as [Hstale _].
  destruct (fetchWithCache_fallback "vod_streams_all" "u" halfHour
              (netDown 5000) emptyWorld "Network request failed" eq_refl)
    as [_ Hnone].
  split.
  - apply (Hstale "[1]" 0%Z (Some 1000%Z)); reflexivity.
  - apply Hnone. reflexivity.
Defined.

Lemma cache_failures_fail_open_witness :
  fst (fetchWithCache "vod_streams_all" "u" halfHour (storageBroken 5)
         staleWorld) = Ok "[1,2]" ∧
  storage (snd (fetchWithCache "vod_streams_all" "u" halfHour
                  (storageBroken 5) staleWorld)) = storage staleWorld.
Proof.
  destruct (cache_failures_fail_open "vod_streams_all" "u" halfHour
              (storageBroken 5) staleWorld) as [Hread Hwrite].
  destruct (Hread (or_introl eq_refl)) as [Hres _].
  destruct (Hwrite "[1,2]" eq_refl eq_refl) as [_ Hst].
  split; [exact Hres|exact (Hst eq_refl)].
Defined.

(** *** Three overlapping calls *)

(** C2 fails on the code: after [threeCalls] the requests of the second
    and of the third call are both on the network, and only the first call
    was ever aborted; when both complete, two writes are committed, and the
    entry left in the cache is the one of the second call. *)
Theorem three_calls_two_in_flight :
  (λ w, (inFlight "live_categories" w, aborted w, map pc (calls w)))
    <$> run threeCalls emptyWorld
  = Some (2%nat, [0%nat],
          [Done (Err "AbortError"); AwaitFetch None; AwaitFetch None]) ∧
  (λ w, (map (λ x, fst (fst x)) (writes w), aborted w,
         storage w !! getCacheKey home "live_categories"))
    <$> run (threeCalls ++ bothComplete) emptyWorld
  = Some ([1%nat; 2%nat], [0%nat],
          Some (Entry "[2]" 11 (Some 3600011%Z))).
Proof. split; vm_compute; reflexivity. Qed.

(** *** A superseded call that still writes *)



(** *** Clearing under a prefix that another identity shares *)

(** C10, as stated, fails: with ["ann"] on [http://tv.example] active,
    clearing everything removes the entry of ["ann"] on
    [http://tv.example:8080], whose key starts with the active prefix. *)
Lemma clearCache_removes_other_identity :
  identity homeAlt ≠ identity home ∧
  sharedStorage !! getCacheKey homeAlt "live_categories" = Some staleEntry ∧
  clearCache home All true true sharedStorage
    !! getCacheKey homeAlt "live_categories" = None.
Proof. split; [discriminate|]. split; vm_compute; reflexivity. Qed.

Lemma clearCache_frame_witness :
  clearCache home All true true sharedStorage !! getCacheKey dan "vod_info_7"
  = sharedStorage !! getCacheKey dan "vod_info_7".
Proof.
  destruct (clearCache_frame home dan All true true sharedStorage)
    as [_ H].
  apply H; [reflexivity|reflexivity|discriminate].
Defined.

End CacheFacts.

(** ** The movie stream resolver *)

Module ResolverFacts.
Import JsString JsStringFacts Keys Identities Resolver ResolverScenarios.

Lemma truthyStr_nonempty (u : string) : truthyStr (Some u) = true → u ≠ "".
Proof. simpl. by destruct (String.eqb_spec u ""). Qed.

Lemma getVodStreamingUrl_nonempty api n f : getVodStreamingUrl api n f ≠ "".
Proof. unfold getVodStreamingUrl. apply app_nonempty. Qed.

(** C7, as stated, fails: the item carries a direct source URL, and the
    resolver returns the empty string, because the guard on the stream id
    comes first. *)
Lemma direct_source_without_stream_id :
  directSource (Some directOnly) = Some cdnUrl ∧
  getOptimalMovieStreamingUrl home (Some directOnly) = "" ∧
  getOptimalMovieStreamingUrl home (Some directOnly) ≠ cdnUrl.
Proof. split; [reflexivity|]. split; [reflexivity|discriminate]. Qed.

(** C7, amended: for an item with a stream id, a non-empty direct source
    URL is returned unchanged, whatever URL the other fields would give;
    and the resolver, a total function of the credentials and the item,
    returns the empty string exactly when the item is missing or has no
    stream id (a missing, zero or empty [stream_id]). *)
Theorem getOptimalMovieStreamingUrl_spec (api : Credentials)
    (movieDetails : option MovieDetails) :
  (∀ u, hasStreamId movieDetails = true →
        directSource movieDetails = Some u → u ≠ "" →
        getOptimalMovieStreamingUrl api movieDetails = u) ∧
  (getOptimalMovieStreamingUrl api movieDetails = ""
   ↔ hasStreamId movieDetails = false).
Proof.
  destruct movieDetails as [[md]|]; simpl; [|by split].
  destruct (truthyId (md ≫= stream_id)) eqn:Hid; simpl.
  - split.
    + intros u _ Hu Hne. rewrite Hu. simpl.
      by destruct (String.eqb_spec u "").
    + split; [|done]. intros H. exfalso.
      destruct (truthyStr (md ≫= direct_source)) eqn:Hd.
      * destruct (md ≫= direct_source) as [u|]; [|done].
        by apply truthyStr_nonempty in Hd.
      * by apply getVodStreamingUrl_nonempty in H.
  - by split.
Qed.

Lemma getOptimalMovieStreamingUrl_spec_witness :
  getOptimalMovieStreamingUrl home (Some directAndId) = cdnUrl ∧
  (getOptimalMovieStreamingUrl home (Some directOnly) = ""
   ↔ hasStreamId (Some directOnly) = false).
Proof.
  split.
  - apply (getOptimalMovieStreamingUrl_spec home (Some directAndId));
      [reflexivity|reflexivity|discriminate].
  - apply (getOptimalMovieStreamingUrl_spec home (Some directOnly)).
Defined.

End ResolverFacts.

(** ** The player *)

Module PlayerFacts.
Import JsString Keys Identities Resolver Player PlayerScenarios.

Lemma nextFormat_M3u8 : nextFormat M3u8 = Mp4.
Proof. reflexivity. Qed.

Lemma nextFormat_Mp4 : nextFormat Mp4 = Ts.
Proof. reflexivity. Qed.

Lemma nextFormat_Ts : nextFormat Ts = M3u8.
Proof. reflexivity. Qed.


(** After two errors answered by a retry the attempt count is 2, and a
    further error is reported to the parent without a retry. *)
Lemma handleError_exhausted api props r msg s :
  (2 ≤ seenAttempt r)%nat → hasOnError props = true →
  unloading (handleError api props r msg s) = unloading s ∧
  reported (handleError api props r msg s)
  = match msg with
    | Some m => m
    | None => "An error occurred during playback"
    end :: reported s.
Proof.
  intros Hr Ho. unfold handleError.
  destruct (Nat.ltb_spec (seenAttempt r) 2) as [|_]; [lia|].
  by rewrite Ho.
Qed.

Lemma step_withinBudget api props ev s s' :
  errorDriven ev = true → withinBudget s → step api props ev s = Some s' →
  withinBudget s'.
Proof.
  intros Hev Hb Hstep. pose proof Hb as (Hsum & Hone & Hflag).
  destruct ev as [msg| | | |l b| | |]; try discriminate Hev; simpl in Hstep.
  - destruct (videoMounted s) eqn:Hm; [|done]. injection Hstep as <-.
    unfold handleError. cbn [latestRender seenAttempt].
    destruct (Nat.ltb_spec (playbackAttempt s) 2) as [Hlt|Hge].
    + unfold retryWithDifferentFormat. cbn [latestRender seenInRetryFlow].
      destruct (isInRetryFlow s) eqn:Hr; [done|].
      destruct (Hflag eq_refl) as [Hu Ht]. unfold withinBudget. cbn.
      rewrite Hm, Hu, Ht. cbn. repeat split; try lia; done.
    + by destruct (hasOnError props).
  - destruct (unloading s) as [|[next url] rest] eqn:Hu; [done|].
    injection Hstep as <-. cbn in Hsum, Hone.
    assert (rest = []) as -> by (destruct rest; [done|cbn in Hone; lia]).
    assert (reloadTimers s = 0%nat) as Ht by lia.
    unfold onUnloaded, withinBudget.
    destruct (truthyNum (streamId props)); cbn; rewrite ?Ht;
      repeat split; try lia; try done.
    all: by destruct (Hflag ltac:(assumption)).
  - destruct (Nat.ltb_spec 0 (reloadTimers s)) as [Hpos|]; [|done].
    injection Hstep as <-.
    assert (unloading s = []) as Hu
      by (destruct (unloading s); [done|cbn in Hone; lia]).
    unfold onReloadTimer, withinBudget. cbn. rewrite Hu in *. cbn in *.
    destruct (videoMounted s); repeat split; try lia; done.
  - destruct (videoMounted s); [|done]. injection Hstep as <-.
    unfold onPlaybackStatusUpdate. by destruct l.
  - destruct (videoMounted s); [|done]. by injection Hstep as <-.
  - destruct (videoMounted s); [|done]. by injection Hstep as <-.
Qed.

Lemma run_withinBudget api props evs s s' :
  forallb errorDriven evs = true → withinBudget s →
  run api props evs s = Some s' → withinBudget s'.
Proof.
  revert s. induction evs as [|ev evs IH]; intros s Hevs Hs Hrun.
  - by injection Hrun as <-.
  - cbn in Hevs. apply andb_prop in Hevs as [Hev Hevs]. cbn in Hrun.
    destruct (step api props ev s) as [s1|] eqn:Hstep; [|done].
    eapply IH; [done| |done]. by eapply step_withinBudget.
Qed.

(** Without the load timer and the format button, the attempt count never
    exceeds 2: [handleError] alone keeps the budget. *)
Lemma handleError_bound api props evs uri s :
  forallb errorDriven evs = true →
  run api props evs (mount uri) = Some s → (playbackAttempt s ≤ 2)%nat.
Proof.
  intros Hevs Hrun.
  destruct (run_withinBudget api props evs (mount uri) s Hevs) as [H _];
    [|done|lia].
  unfold withinBudget, mount. cbn. repeat split; try lia; done.
Qed.

(** C6 fails on the code: the callback of the load timer tests the
    [isBuffering] and [playbackAttempt] of the first render, so it starts
    a third automatic format switch after the two that [handleError]
    allows; nothing is reported to the parent. *)
Theorem load_timer_third_retry :
  (λ s, (playbackAttempt s, loads s, reported s))
    <$> run home film twoErrorsThenTimer (mount filmUri)
  = Some (3%nat,
          [ "http://tv.example/movie/ann/pw/42.mp4";
            "http://tv.example/movie/ann/pw/42.ts";
            "http://tv.example/movie/ann/pw/42.mp4" ],
          []).
Proof. vm_compute. reflexivity. Qed.



End PlayerFacts.

(** ** Watch history *)

Module HistoryFacts.
Import Keys Identities History.

Section Store.
Context {Num : Type}.
Variable truthy : Num → bool.
Implicit Types (st : gmap string (Stored Num)) (h item : WatchHistoryItem Num)
  (l : list (WatchHistoryItem Num)).

Lemma optZ_eqb_refl (a : option Z) : optZ_eqb a a = true.
Proof. destruct a; simpl; [apply Z.eqb_refl|done]. Qed.

Lemma ItemType_eqb_refl (t : ItemType) : ItemType_eqb t t = true.
Proof. by destruct t. Qed.

Lemma sameEntry_stamped now item : sameEntry item (stamped now item) = true.
Proof.
  unfold sameEntry. simpl.
  rewrite Z.eqb_refl, ItemType_eqb_refl, !optZ_eqb_refl. simpl.
  apply orb_true_r.
Qed.

(** The entry of an item is found under the item's own id, type, season
    and episode. *)
Lemma matches_stamped now item :
  matches (id item) (type item) (season item) (episode_num item)
          (stamped now item) = true.
Proof.
  unfold matches. simpl. rewrite Z.eqb_refl, ItemType_eqb_refl. simpl.
  rewrite !optZ_eqb_refl. by destruct (episodeGiven _ _ _).
Qed.

Lemma kept_matches i t s e h : kept i t s e h = negb (matches i t s e h).
Proof.
  unfold kept, matches.
  destruct (negb (id h =? i)%Z || negb (ItemType_eqb (type h) t)); [done|].
  by destruct (episodeGiven t s e).
Qed.

Lemma getHistory_saveHistory api st l :
  getHistory api (saveHistory api st true l) true = take MAX_HISTORY_ITEMS l.
Proof.
  unfold getHistory, saveHistory. cbv iota beta. by rewrite lookup_insert_eq.
Qed.

Lemma saveHistory_other api st ok l k :
  k ≠ getUserKey api → saveHistory api st ok l !! k = st !! k.
Proof.
  intros Hk. unfold saveHistory. destruct ok; [|done].
  by rewrite lookup_insert_ne.
Qed.

Lemma find_none_filter {A : Type} (p : A → bool) (l : list A) (n : nat) :
  List.find p (take n (List.filter (λ x, negb (p x)) l)) = None.
Proof.
  revert n. induction l as [|x l IH]; intros n; simpl.
  - by destruct n.
  - destruct (p x) eqn:Hp; simpl; [apply IH|].
    destruct n; simpl; [done|]. rewrite Hp. apply IH.
Qed.

Lemma filter_filter_same {A : Type} (p : A → bool) (l : list A) :
  List.filter p (List.filter p l) = List.filter p l.
Proof.
  induction l as [|x l IH]; simpl; [done|].
  destruct (p x) eqn:Hp; simpl; [by rewrite Hp, IH|done].
Qed.

Lemma filter_take_all {A : Type} (p : A → bool) (l : list A) (n : nat) :
  Forall (λ x, p x = true) l → List.filter p (take n l) = take n l.
Proof.
  intros H. revert n. induction H as [|x l Hx _ IH]; intros [|n]; simpl;
    try done.
  by rewrite Hx, IH.
Qed.

Lemma Forall_filter_true {A : Type} (p : A → bool) (l : list A) :
  Forall (λ x, p x = true) (List.filter p l).
Proof.
  induction l as [|x l IH]; simpl; [constructor|].
  destruct (p x) eqn:Hp; [by constructor|done].
Qed.

(** X1: a successful [addToHistory] leaves a history that starts with the
    item, stamped with the current time, holds at most 100 entries, and in
    which no other entry is the entry of the same stream or episode; the
    entries after the first are entries of the history read, in their
    order. *)
Theorem addToHistory_newest_first api readOk now item st :
  ∃ rest,
    getHistory api (addToHistory api readOk true now item st) true
    = stamped now item :: rest ∧
    (List.length (stamped now item :: rest) ≤ MAX_HISTORY_ITEMS)%nat ∧
    Forall (λ h, sameEntry item h = false) rest ∧
    rest `sublist_of` getHistory api st readOk.
Proof.
  unfold addToHistory. rewrite getHistory_saveHistory.
  set (old := getHistory api st readOk).
  exists (take 99 (List.filter (λ h, negb (sameEntry item h)) old)).
  split; [done|]. split; [|split].
  - simpl. rewrite length_take. unfold MAX_HISTORY_ITEMS. lia.
  - apply Forall_take.
    eapply Forall_impl; [apply Forall_filter_true|].
    simpl. intros h Hh. by destruct (sameEntry item h).
  - etrans; [apply sublist_take|].
    clear. induction old as [|x l IH]; simpl; [done|].
    destruct (negb _); by constructor.
Qed.

(** X2: after a successful [addToHistory], [getPlaybackPosition] asked for
    the id, type, season and episode of the item gives the position of the
    item, or [null] when the item has none or a falsy one; an older
    position of the same entry is gone. *)
Theorem addToHistory_getPlaybackPosition api readOk now item st :
  getPlaybackPosition truthy api true (id item) (type item) (season item)
    (episode_num item) (addToHistory api readOk true now item st)
  = match position item with
    | Some p => if truthy p then Some p else None
    | None => None
    end.
Proof.
  unfold getPlaybackPosition, addToHistory. rewrite getHistory_saveHistory.
  simpl. by rewrite matches_stamped.
Qed.

(** X3: after a successful [removeFromHistory], [getPlaybackPosition] with
    the same arguments gives [null]. *)
Theorem removeFromHistory_getPlaybackPosition api readOk i t s e st :
  getPlaybackPosition truthy api true i t s e
    (removeFromHistory api readOk true i t s e st) = None.
Proof.
  unfold getPlaybackPosition, removeFromHistory.
  rewrite getHistory_saveHistory.
  rewrite (List.filter_ext _ (λ h, negb (matches i t s e h)))
    by apply kept_matches.
  by rewrite find_none_filter.
Qed.

(** X4: adding an item that was just added moves nothing and duplicates
    nothing: the history is the one a single [addToHistory] at the later
    time gives. *)
Theorem addToHistory_twice api readOk now now' item st :
  getHistory api
    (addToHistory api true true now' item
       (addToHistory api readOk true now item st)) true
  = getHistory api (addToHistory api readOk true now' item st) true.
Proof.
  unfold addToHistory at 1. rewrite getHistory_saveHistory.
  unfold addToHistory. rewrite !getHistory_saveHistory.
  set (old := List.filter (λ h, negb (sameEntry item h))
                (getHistory api st readOk)).
  change (take MAX_HISTORY_ITEMS (stamped now item :: old))
    with (stamped now item :: take 99 old).
  simpl List.filter. rewrite sameEntry_stamped. simpl negb. cbv iota.
  rewrite filter_take_all by apply Forall_filter_true.
  change (take MAX_HISTORY_ITEMS (stamped now' item :: take 99 old))
    with (stamped now' item :: take 99 (take 99 old)).
  by rewrite take_take, Nat.min_id.
Qed.

(** X5: when the stored history cannot be read (the read fails, or the
    text does not parse), the readers see an empty history, and a
    successful [addToHistory] replaces what is stored by the item alone. *)
Theorem unreadable_history_is_empty api readOk now item st limit i t s e :
  readOk = false ∨ st !! getUserKey api = Some BadText →
  getRecentlyWatched api readOk limit st = [] ∧
  getWatchedByType api readOk t limit st = [] ∧
  getPlaybackPosition truthy api readOk i t s e st = None ∧
  addToHistory api readOk true now item st !! getUserKey api
  = Some (Items [stamped now item]).
Proof.
  intros H.
  assert (Hget : getHistory api st readOk = []).
  { unfold getHistory. destruct H as [->| ->]; [done|by destruct readOk]. }
  unfold getRecentlyWatched, getWatchedByType, getPlaybackPosition,
    addToHistory.
  rewrite Hget. cbn [List.filter List.find positionOrNull].
  repeat split;
    try (unfold slice0; destruct (limit <? 0)%Z; by rewrite take_nil).
  unfold saveHistory. cbv iota beta. by rewrite lookup_insert_eq.
Qed.

(** X6: [getWatchedByType] with a limit that is not negative gives at most
    [limit] entries, all of the type asked for, taken in order from the
    history. *)
Theorem getWatchedByType_bound api readOk t limit st :
  (0 ≤ limit)%Z →
  let r := getWatchedByType api readOk t limit st in
  (Z.of_nat (List.length r) ≤ limit)%Z ∧
  Forall (λ h, type h = t) r ∧
  r `sublist_of` getHistory api st readOk.
Proof.
  intros Hl r. subst r. unfold getWatchedByType, slice0.
  destruct (Z.ltb_spec limit 0) as [|_]; [lia|].
  set (old := getHistory api st readOk). split; [|split].
  - rewrite length_take. lia.
  - apply Forall_take.
    eapply Forall_impl; [apply Forall_filter_true|].
    simpl. intros h Hh. by destruct (type h), t.
  - etrans; [apply sublist_take|].
    clear. induction old as [|x l IH]; simpl; [done|].
    destruct (ItemType_eqb _ _); by constructor.
Qed.

(** [saveHistory] writes the key of the active user only. *)
Lemma addToHistory_other_keys api readOk writeOk now item st k :
  k ≠ getUserKey api →
  addToHistory api readOk writeOk now item st !! k = st !! k.
Proof. intros Hk. unfold addToHistory. by apply saveHistory_other. Qed.

End Store.

End HistoryFacts.

(** ** Favourites *)

Module FavoritesFacts.
Import Keys Identities Cache CacheFacts Favorites.
Implicit Types (st : gmap string Stored) (fav item : FavoriteItem)
  (l : list FavoriteItem).

Lemma isSame_spec i t fav : isSame i t fav = true ↔ favKey fav = (i, t).
Proof.
  unfold isSame, favKey. rewrite andb_true_iff, Z.eqb_eq. split.
  - intros [-> H]. f_equal. by destruct (type fav), t.
  - intros [= -> <-]. split; [done|]. by destruct (type fav).
Qed.

Lemma isSame_own item : isSame (id item) (type item) item = true.
Proof. by apply isSame_spec. Qed.

Lemma getFavorites_saveFavorites api st l :
  getFavorites api (saveFavorites api st true l) true = l.
Proof.
  unfold getFavorites, saveFavorites. cbv iota beta. by rewrite lookup_insert_eq.
Qed.

Lemma existsb_isSame_In i t l :
  existsb (isSame i t) l = true ↔ In (i, t) (map favKey l).
Proof.
  rewrite existsb_exists, in_map_iff. split.
  - intros (fav & Hin & H). exists fav. by apply isSame_spec in H.
  - intros (fav & H & Hin). exists fav. by apply isSame_spec in H.
Qed.

Lemma NoDup_filter_keys (p : FavoriteItem → bool) l :
  List.NoDup (map favKey l) → List.NoDup (map favKey (List.filter p l)).
Proof.
  induction l as [|x l IH]; simpl; [done|].
  intros H. apply List.NoDup_cons_iff in H as [Hx Hl].
  destruct (p x); simpl; [|by apply IH].
  apply List.NoDup_cons; [|by apply IH].
  intros Hin. apply Hx. apply in_map_iff in Hin as (y & Hy & Hin).
  apply in_map_iff. exists y. split; [done|].
  by apply filter_In in Hin as [Hin _].
Qed.

Lemma addFavorite_present api readOk writeOk item st :
  existsb (isSame (id item) (type item)) (getFavorites api st readOk) = true →
  addFavorite api readOk writeOk item st = st.
Proof. unfold addFavorite. cbv zeta. by intros ->. Qed.

Lemma addFavorite_absent api readOk writeOk item st :
  existsb (isSame (id item) (type item)) (getFavorites api st readOk) = false →
  addFavorite api readOk writeOk item st
  = saveFavorites api st writeOk (getFavorites api st readOk ++ [item])%list.
Proof. unfold addFavorite. cbv zeta. by intros ->. Qed.

(** X26: after a successful [addFavorite] the item is a favourite, the
    favourites read before are still there, in their order and in front,
    and adding the item once more changes nothing. *)
Theorem addFavorite_isFavorite api readOk item st :
  let st' := addFavorite api readOk true item st in
  isFavorite api true (id item) (type item) st' = true ∧
  (∃ more, getAllFavorites api true st'
           = (getFavorites api st readOk ++ more)%list ∧
           (List.length more ≤ 1)%nat) ∧
  addFavorite api true true item st' = st'.
Proof.
  intros st'. subst st'.
  set (old := getFavorites api st readOk).
  destruct (existsb (isSame (id item) (type item)) old) eqn:E.
  - assert (Hold : readOk = true).
    { destruct readOk; [done|]. by subst old. }
    subst old. rewrite Hold in *.
    rewrite (addFavorite_present _ _ _ _ _ E).
    unfold isFavorite, getAllFavorites. split; [done|]. split.
    + exists []. split; [by rewrite app_nil_r|simpl; lia].
    + by apply addFavorite_present.
  - rewrite (addFavorite_absent _ _ _ _ _ E). fold old.
    unfold isFavorite, getAllFavorites.
    rewrite getFavorites_saveFavorites.
    assert (Hnew : existsb (isSame (id item) (type item)) (old ++ [item])
                   = true).
    { rewrite existsb_app. simpl. rewrite isSame_own. by rewrite !orb_true_r. }
    split; [done|]. split.
    + exists [item]. split; [done|]. simpl. lia.
    + apply addFavorite_present. by rewrite getFavorites_saveFavorites.
Qed.

(** X27: no operation gives a stream two entries: when the stored
    favourites hold each (id, type) pair at most once, they still do after
    [addFavorite] and after [removeFavorite], whether the storage calls
    succeed or fail. *)
Theorem favorites_stay_distinct api readOk writeOk item i t st :
  List.NoDup (map favKey (getFavorites api st true)) →
  List.NoDup (map favKey
    (getFavorites api (addFavorite api readOk writeOk item st) true)) ∧
  List.NoDup (map favKey
    (getFavorites api (removeFavorite api readOk writeOk i t st) true)).
Proof.
  intros H. split.
  - unfold addFavorite.
    destruct (existsb _ _) eqn:E; simpl negb; cbv iota; [done|].
    destruct writeOk; [|done]. rewrite getFavorites_saveFavorites.
    rewrite map_app. simpl.
    destruct readOk.
    + apply NoDup_ListNoDup, NoDup_app. split; [|split].
      * by apply NoDup_ListNoDup.
      * intros k Hk Hin. apply list_elem_of_In in Hk.
        apply list_elem_of_singleton in Hin. subst k.
        apply existsb_isSame_In in Hk. congruence.
      * apply NoDup_singleton.
    + simpl. apply List.NoDup_cons; [by intros []|constructor].
  - unfold removeFavorite. destruct writeOk; [|done].
    rewrite getFavorites_saveFavorites.
    destruct readOk; [by apply NoDup_filter_keys|constructor].
Qed.

(** X28: after a successful [removeFavorite] the stream is no favourite,
    and every other stream is a favourite exactly when it was one. *)
Theorem removeFavorite_isFavorite api i t st :
  let st' := removeFavorite api true true i t st in
  isFavorite api true i t st' = false ∧
  (∀ i' t', (i', t') ≠ (i, t) →
            isFavorite api true i' t' st' = isFavorite api true i' t' st).
Proof.
  intros st'. subst st'. unfold removeFavorite, isFavorite.
  rewrite getFavorites_saveFavorites.
  set (old := getFavorites api st true). split.
  - induction old as [|x l IH]; simpl; [done|].
    destruct (isSame i t x) eqn:E; simpl; [done|]. by rewrite E.
  - intros i' t' Hne. induction old as [|x l IH]; simpl; [done|].
    destruct (isSame i t x) eqn:E; simpl; [|by rewrite IH].
    rewrite IH. destruct (isSame i' t' x) eqn:E'; [|done].
    apply isSame_spec in E, E'. congruence.
Qed.

(** X29: [clearCache] never touches the watch history or the favourites:
    whatever the identity, the clear type and the outcome of the storage
    calls, what is stored under a history key or a favourites key is left
    as it is; and no history key is a favourites key. *)
Theorem clearCache_keeps_history_and_favorites {Data : Type}
    (api user : Credentials) (type : ClearType) (keysOk removeOk : bool)
    (st : gmap string (Item Data)) :
  clearCache api type keysOk removeOk st !! History.getUserKey user
  = st !! History.getUserKey user ∧
  clearCache api type keysOk removeOk st !! getUserKey user
  = st !! getUserKey user ∧
  History.getUserKey api ≠ getUserKey user.
Proof.
  split; [|split].
  - apply clearCache_other. unfold History.getUserKey.
    by destruct (isAuthenticated user).
  - apply clearCache_other. unfold getUserKey.
    by destruct (isAuthenticated user).
  - unfold History.getUserKey, getUserKey.
    destruct (isAuthenticated api), (isAuthenticated user); simpl;
      intros H; discriminate H.
Qed.

End FavoritesFacts.

Module FavoritesExamples.
Import Keys Identities Favorites FavoritesScenarios.

Lemma favorites_stay_distinct_witness :
  List.NoDup (map favKey
    (getFavorites home (addFavorite home true true favSeries someFavorites)
       true)) ∧
  List.NoDup (map favKey
    (getFavorites home
       (removeFavorite home true true 5 History.LiveItem someFavorites)
       true)).
Proof.
  apply (FavoritesFacts.favorites_stay_distinct home true true favSeries 5
           History.LiveItem someFavorites).
  change (List.NoDup [(5%Z, History.LiveItem); (42%Z, History.VodItem)]).
  repeat (apply List.NoDup_cons; [simpl; intuition discriminate|]).
  apply List.NoDup_nil.
Defined.

End FavoritesExamples.

(** ** Position checkpoints and the clock display *)

Module PlayerHistoryFacts.
Import Keys Identities Resolver Player History PlayerHistory.

Section Checkpoint.
Context {Num : Type}.
Variable truthy : Num → bool.
Variable toSeconds : Z → Num.


End Checkpoint.

(** *** The clock display *)

Lemma secondsOfAnHour_all (P : Z → bool) (s : Z) :
  forallb P secondsOfAnHour = true → (0 ≤ s < 3600)%Z → P s = true.
Proof.
  intros H Hs. rewrite forallb_forall in H. apply H.
  unfold secondsOfAnHour. apply in_map_iff. exists (Z.to_nat s).
  split; [lia|]. apply in_seq. lia.
Qed.

Lemma formatTime_clockOf (millis : Z) :
  (0 ≤ millis < 3600000)%Z → formatTime millis = clockOf (millis / 1000).
Proof.
  intros H. unfold formatTime, clockOf.
  destruct (Z.eqb_spec millis 0) as [->|_]; [reflexivity|].
  cbv zeta.
  assert (millis / 1000 / 3600 = 0)%Z as ->.
  { apply Z.div_small. split; [apply Z.div_pos; lia|].
    apply Z.div_lt_upper_bound; lia. }
  done.
Qed.

Lemma clockOf_checked :
  forallb (λ s, (String.length (clockOf s) =? 5)%nat &&
                bool_decide (clockSeconds (clockOf s) = Some s))
          secondsOfAnHour = true.
Proof. vm_compute. reflexivity. Qed.

(** X8: for a position below one hour [formatTime] gives five characters,
    minutes and seconds, from which the whole seconds of the position can
    be read back; so two such positions are shown alike exactly when they
    lie in the same second. *)
Theorem formatTime_below_one_hour (millis other : Z) :
  (0 ≤ millis < 3600000)%Z → (0 ≤ other < 3600000)%Z →
  String.length (formatTime millis) = 5%nat ∧
  clockSeconds (formatTime millis) = Some (millis / 1000)%Z ∧
  (formatTime millis = formatTime other ↔ (millis / 1000 = other / 1000)%Z).
Proof.
  intros Hm Ho.
  assert (Hs : ∀ m, (0 ≤ m < 3600000)%Z →
             String.length (formatTime m) = 5%nat ∧
             clockSeconds (formatTime m) = Some (m / 1000)%Z).
  { intros m H. rewrite (formatTime_clockOf m H).
    pose proof (secondsOfAnHour_all _ (m / 1000) clockOf_checked) as Hc.
    cbv beta in Hc. apply andb_prop in Hc as [Hl Hd].
    - split; [by apply Nat.eqb_eq|by apply bool_decide_eq_true in Hd].
    - split; [apply Z.div_pos; lia|apply Z.div_lt_upper_bound; lia]. }
  destruct (Hs millis Hm) as [Hl Hd]. destruct (Hs other Ho) as [_ Hd'].
  split; [done|]. split; [done|]. split.
  - intros E. rewrite E in Hd. congruence.
  - intros E. by rewrite !formatTime_clockOf, E.
Qed.

End PlayerHistoryFacts.

(** ** The player's timers *)

Module PlayerTimerFacts.
Import JsString JsStringFacts Keys Identities Resolver Player PlayerScenarios.

Lemma retry_loadTimeout api props r s :
  loadTimeout (retryWithDifferentFormat api props r s) = loadTimeout s.
Proof. unfold retryWithDifferentFormat. by destruct (seenInRetryFlow r). Qed.

Lemma step_loadTimeout_off api props ev s s' :
  loadTimeout s = false → step api props ev s = Some s' →
  loadTimeout s' = false ∧ ev ≠ LoadTimeout.
Proof.
  intros Hoff Hstep.
  destruct ev as [msg| | | |l b| | |]; simpl in Hstep.
  - destruct (videoMounted s); [|done]. injection Hstep as <-.
    split; [|done]. unfold handleError.
    destruct (_ <? _)%nat; [by rewrite retry_loadTimeout|].
    by destruct (hasOnError props).
  - by rewrite Hoff in Hstep.
  - destruct (unloading s) as [|[next url] rest]; [done|].
    injection Hstep as <-. split; [|done]. unfold onUnloaded.
    by destruct (truthyNum (streamId props)).
  - destruct (_ <? _)%nat; [|done]. by injection Hstep as <-.
  - destruct (videoMounted s); [|done]. injection Hstep as <-.
    split; [|done]. unfold onPlaybackStatusUpdate. by destruct l.
  - destruct (videoMounted s && negb (isInRetryFlow s)); [|done].
    injection Hstep as <-. by rewrite retry_loadTimeout.
  - destruct (videoMounted s); [|done]. by injection Hstep as <-.
  - destruct (videoMounted s); [|done]. by injection Hstep as <-.
Qed.

(** X9: once a status update of a loaded video has arrived, the load timer
    never fires again: no later schedule contains its event, and the timer
    stays cleared; the same holds after a fullscreen toggle and after
    unmounting. *)
Theorem loaded_clears_load_timer api props ev evs s s1 s' :
  ev = StatusUpdate true true ∨ ev = StatusUpdate true false ∨
  ev = ToggleFullscreen ∨ ev = Unmount →
  step api props ev s = Some s1 → run api props evs s1 = Some s' →
  loadTimeout s' = false ∧ ¬ In LoadTimeout evs.
Proof.
  intros Hev Hstep Hrun.
  assert (Hoff : loadTimeout s1 = false).
  { destruct Hev as [->|[->|[->| ->]]]; simpl in Hstep;
      destruct (videoMounted s); try done; by injection Hstep as <-. }
  clear Hstep Hev. revert s1 Hoff Hrun.
  induction evs as [|e evs IH]; intros s1 Hoff Hrun; simpl in Hrun.
  - injection Hrun as <-. split; [done|]. by intros [].
  - destruct (step api props e s1) as [s2|] eqn:Hstep; [|done].
    destruct (step_loadTimeout_off _ _ _ _ _ Hoff Hstep) as [Hoff2 Hne].
    destruct (IH s2 Hoff2 Hrun) as [Hfin Hnin]. split; [done|].
    intros [->|Hin]; [done|by apply Hnin].
Qed.

Lemma retry_unmounted api props r s :
  videoMounted s = false →
  let s' := retryWithDifferentFormat api props r s in
  videoMounted s' = false ∧ loads s' = loads s ∧
  playbackAttempt s' = playbackAttempt s ∧ unloading s' = unloading s.
Proof.
  intros Hm. unfold retryWithDifferentFormat.
  destruct (seenInRetryFlow r); cbn; [done|]. by rewrite Hm.
Qed.

Lemma step_unmounted api props ev s s' :
  videoMounted s = false → step api props ev s = Some s' →
  videoMounted s' = false ∧ loads s' = loads s ∧
  playbackAttempt s' = playbackAttempt s.
Proof.
  intros Hm Hstep.
  destruct ev as [msg| | | |l b| | |]; simpl in Hstep;
    rewrite ?Hm in Hstep; try done.
  - destruct (loadTimeout s); [|done]. injection Hstep as <-.
    unfold onLoadTimeout. cbn [firstRender seenBuffering seenAttempt andb Nat.eqb].
    destruct (retry_unmounted api props firstRender (clearLoadTimeout s) Hm)
      as (H1 & H2 & H3 & _).
    by rewrite H1, H2, H3.
  - destruct (unloading s) as [|[next url] rest]; [done|].
    injection Hstep as <-. unfold onUnloaded.
    by destruct (truthyNum (streamId props)).
  - destruct (_ <? _)%nat; [|done]. injection Hstep as <-.
    unfold onReloadTimer. cbn. by rewrite Hm.
Qed.

(** X10: after the player is unmounted no source is loaded any more and
    the attempt count stays as it is, whatever unload promises and timers
    of a format switch are still to come. *)
Theorem unmounted_never_loads api props evs s s1 s' :
  step api props Unmount s = Some s1 → run api props evs s1 = Some s' →
  loads s' = loads s ∧ playbackAttempt s' = playbackAttempt s ∧
  videoMounted s' = false.
Proof.
  intros Hstep Hrun. simpl in Hstep.
  destruct (videoMounted s); [|done]. injection Hstep as <-.
  assert (Hinv : videoMounted (unmount s) = false ∧
                 loads (unmount s) = loads s ∧
                 playbackAttempt (unmount s) = playbackAttempt s) by done.
  revert Hinv Hrun. generalize (unmount s). clear.
  induction evs as [|e evs IH]; intros s1 (Hm & Hl & Ha) Hrun; simpl in Hrun.
  - by injection Hrun as <-.
  - destruct (step api props e s1) as [s2|] eqn:Hstep; [|done].
    destruct (step_unmounted _ _ _ _ _ Hm Hstep) as (Hm2 & Hl2 & Ha2).
    apply (IH s2); [|done]. repeat split; congruence.
Qed.

(** X11: as long as neither the load timer fires nor the format button is
    pressed, the retries [handleError] starts keep the budget: at every
    moment the attempt count is at most 2, at most one format switch is
    under way, and the attempts made and the switch under way together
    are at most 2. *)
Theorem error_retries_within_budget api props evs uri s :
  forallb errorDriven evs = true →
  run api props evs (mount uri) = Some s →
  (playbackAttempt s ≤ 2)%nat ∧
  (List.length (unloading s) + reloadTimers s ≤ 1)%nat ∧
  (playbackAttempt s + List.length (unloading s) + reloadTimers s ≤ 2)%nat.
Proof.
  intros Hevs Hrun.
  destruct (PlayerFacts.run_withinBudget api props evs (mount uri) s Hevs)
    as (H1 & H2 & _); [|done|].
  - unfold withinBudget, mount. cbn. repeat split; try lia; done.
  - repeat split; [lia|done|done].
Qed.

(** *** The URL of a retry on a live stream *)




End PlayerTimerFacts.

(** ** The cached getters and [clearCache] *)

Module ApiFacts.
Import JsString JsStringFacts Keys Identities Cache CacheFacts Resolver Api.

Lemma categoryKey_inj stem c1 c2 :
  categoryKey stem c1 = categoryKey stem c2 →
  categoryParams c1 = categoryParams c2.
Proof.
  unfold categoryKey, categoryParams.
  destruct c1 as [c1|], c2 as [c2|]; simpl;
    repeat match goal with
           | |- context [String.eqb ?c ""] => destruct (String.eqb_spec c "")
           end; simpl; intros H; try done;
    apply app_cancel_l in H; try discriminate H.
  by injection H as ->.
Qed.

(** X13: two calls of one getter that use the same cache key ask the
    server for the same URL: a cached answer is never the answer to a
    request for another category, film or series. *)
Theorem same_key_same_url (api : Credentials) :
  (∀ c1 c2, reqKey (liveStreamsRequest api c1)
            = reqKey (liveStreamsRequest api c2) →
            reqUrl (liveStreamsRequest api c1)
            = reqUrl (liveStreamsRequest api c2)) ∧
  (∀ c1 c2, reqKey (vodStreamsRequest api c1)
            = reqKey (vodStreamsRequest api c2) →
            reqUrl (vodStreamsRequest api c1)
            = reqUrl (vodStreamsRequest api c2)) ∧
  (∀ c1 c2, reqKey (seriesRequest api c1) = reqKey (seriesRequest api c2) →
            reqUrl (seriesRequest api c1) = reqUrl (seriesRequest api c2)) ∧
  (∀ n1 n2, reqKey (vodInfoRequest api n1) = reqKey (vodInfoRequest api n2) →
            reqUrl (vodInfoRequest api n1) = reqUrl (vodInfoRequest api n2)) ∧
  (∀ n1 n2, reqKey (seriesInfoRequest api n1)
            = reqKey (seriesInfoRequest api n2) →
            reqUrl (seriesInfoRequest api n1)
            = reqUrl (seriesInfoRequest api n2)).
Proof.
  repeat split; intros a b H; cbn [reqKey reqUrl liveStreamsRequest
    vodStreamsRequest seriesRequest vodInfoRequest seriesInfoRequest] in *.
  - by rewrite (categoryKey_inj _ _ _ H).
  - by rewrite (categoryKey_inj _ _ _ H).
  - by rewrite (categoryKey_inj _ _ _ H).
  - apply (app_cancel_l "vod_info_") in H. by rewrite H.
  - apply (app_cancel_l "series_info_") in H. by rewrite H.
Qed.

Lemma includes_app (a b sub : string) :
  String.prefix sub b = true → includes (a +:+ b) sub = true.
Proof.
  intros H. induction a as [|c a IH]; cbn [String.append includes].
  - destruct b; cbn [includes]; by rewrite H.
  - rewrite IH. apply orb_true_r.
Qed.

Lemma keysToRemove_removable type p keys :
  keysToRemove type p keys = List.filter (removable type p) keys.
Proof. by destruct type. Qed.

Section Clear.
Context {Data : Type}.
Implicit Types (st : gmap string (Item Data)) (w : World Data).

Lemma multiRemove_removed keys st k :
  In k keys → multiRemove keys st !! k = None.
Proof.
  unfold multiRemove. induction keys as [|x keys IH]; simpl; [done|].
  intros [->|Hin]; [apply lookup_delete_eq|].
  destruct (decide (x = k)) as [->|Hne]; [apply lookup_delete_eq|].
  rewrite lookup_delete_ne by done. by apply IH.
Qed.

(** With the storage calls succeeding, [clearCache] leaves no entry under
    a key its filter accepts. *)
Lemma clearCache_removes api type st k :
  removable type (cachePrefix api) k = true →
  clearCache api type true true st !! k = None.
Proof.
  intros Hk. unfold clearCache. rewrite keysToRemove_removable.
  set (toRemove := List.filter _ _).
  destruct (st !! k) as [v|] eqn:Hst.
  - assert (Hin : In k toRemove).
    { apply filter_In. split; [|done]. apply in_map_iff. exists (k, v).
      split; [done|]. apply list_elem_of_In. by apply elem_of_map_to_list. }
    destruct (Nat.ltb_spec 0 (List.length toRemove)) as [_|Hz].
    + by apply multiRemove_removed.
    + destruct toRemove; [done|simpl in Hz; lia].
  - destruct (_ <? _)%nat; [|done].
    destruct (in_dec string_dec k toRemove) as [Hin|Hnin].
    + by apply multiRemove_removed.
    + by rewrite multiRemove_other.
Qed.

Lemma getterKey_removable api type key :
  getterKey type key →
  removable type (cachePrefix api) (getCacheKey api key) = true.
Proof.
  intros Hkey. rewrite KeysFacts.getCacheKey_prefix.
  assert (Hp : startsWith (cachePrefix api +:+ key) (cachePrefix api) = true)
    by apply startsWith_app.
  destruct Hkey as [a|a c|a|a c|a n|a|a c|a n|k];
    cbn [removable reqKey liveCategoriesRequest liveStreamsRequest
         vodCategoriesRequest vodStreamsRequest vodInfoRequest
         seriesCategoriesRequest seriesRequest seriesInfoRequest] in Hp |- *;
    rewrite Hp; cbn [andb]; try done.
  - by rewrite (includes_app _ _ "live_categories").
  - rewrite (includes_app _ _ "live_streams"); [apply orb_true_r|].
    unfold categoryKey. destruct c as [c|]; [|reflexivity].
    destruct (truthyStr (Some c)); reflexivity.
  - by rewrite (includes_app _ _ "vod_categories").
  - rewrite (includes_app _ _ "vod_streams"); [by rewrite orb_true_r|].
    unfold categoryKey. destruct c as [c|]; [|reflexivity].
    destruct (truthyStr (Some c)); reflexivity.
  - rewrite (includes_app _ _ "vod_info"); [by rewrite !orb_true_r|reflexivity].
  - by rewrite (includes_app _ _ "series_categories").
  - unfold categoryKey. destruct c as [c|]; [destruct (truthyStr (Some c))|].
    + rewrite (includes_app _ _ "series_cat_"); [by rewrite !orb_true_r|].
      exact (startsWith_app "series_cat_" c).
    + rewrite (includes_app _ _ "series_all"); [by rewrite !orb_true_r|reflexivity].
    + rewrite (includes_app _ _ "series_all"); [by rewrite !orb_true_r|reflexivity].
  - rewrite (includes_app _ _ "series_info"); [by rewrite !orb_true_r|reflexivity].
Qed.

(** X14: when the storage calls succeed, [clearCache(type)] removes the
    entry of every getter of that type for the active identity
    ([live_categories], [live_streams_*]; [vod_categories], [vod_streams_*],
    [vod_info_*]; [series_categories], [series_cat_*], [series_all],
    [series_info_*]), and [clearCache('all')] the entry of every key. *)
Theorem clearCache_complete api type key st :
  getterKey type key →
  clearCache api type true true st !! getCacheKey api key = None.
Proof. intros H. by apply clearCache_removes, getterKey_removable. Qed.

(** X15: after [clearCache('all')] no call of [fetchWithCache] of the
    active identity is answered from the cache: each sends a request. *)
Theorem clearCache_then_fetch key url d env w :
  let w' := clearCacheIn All true true w in
  servedFromCache key env w' = false ∧
  requests (snd (fetchWithCache key url d env w'))
  = (List.length (calls w), url) :: requests w.
Proof.
  intros w'.
  assert (Hmiss : servedFromCache key env w' = false).
  { unfold servedFromCache, getFromCache, readCache. subst w'.
    cbn [creds storage clearCacheIn].
    rewrite (clearCache_complete (creds w) All key (storage w) (key_any key)).
    by destruct (readOk env). }
  split; [done|]. rewrite (fetchWithCache_miss _ _ _ _ _ Hmiss). cbv zeta.
  destruct (net env); cbn [snd]; unfold release; cbn [requests];
    rewrite ?requests_commit, requests_startFetch; reflexivity.
Qed.

Variable falsy : Data → bool.

(** X16: a getter never fails. When the request fails it gives the entry
    it read from the cache, however old, unless that value is falsy, and
    its fallback (the empty list, or [null]) when it read none; when the
    request succeeds it gives the response, or the fallback for a falsy
    response. *)
Theorem getter_result fallback req env w :
  servedFromCache (reqKey req) env w = false →
  fst (getter falsy fallback req env w)
  = match net env with
    | Response r => if falsy r then fallback else r
    | Failure _ =>
        match getFromCache (creds w) (storage w) (readOk env) (tLookup env)
                (reqKey req) with
        | Some c => if falsy (data c) then fallback else data c
        | None => fallback
        end
    end.
Proof.
  intros Hmiss. unfold getter.
  rewrite (fetchWithCache_miss _ _ _ _ _ Hmiss). cbv zeta.
  destruct (net env); [done|].
  by destruct (getFromCache _ _ _ _ _).
Qed.

End Clear.

(** *** [reset()] and the identity a response is stored under *)

Section Reset.
Context {Data : Type}.
Implicit Types (w : World Data) (c : Call Data).




(** X18: the key of the entry a call writes is derived when the call is
    resumed with its response: the entry goes under the credentials in
    force at that moment, with the clock of that moment, and no other key
    of the storage changes. *)
Theorem response_stored_under_current_identity w i c cached r now :
  calls w !! i = Some c → pc c = FetchSettled cached (Response r) →
  ∃ w', run [FetchDone i now; SaveDone i true] w = Some w' ∧
        storage w' !! getCacheKey (creds w) (callKey c)
        = Some (cacheData r now (callDuration c)) ∧
        (∀ k, k ≠ getCacheKey (creds w) (callKey c) →
              storage w' !! k = storage w !! k) ∧
        (pc <$> calls w' !! i) = Some (Done (Ok r)).
Proof.
  intros Hi Hpc. cbn [run step]. rewrite Hi, Hpc. cbn [afterFetch].
  rewrite (calls_setPc_eq _ _ _ _ Hi). cbn [pc withPc afterSave commit].
  eexists. split; [reflexivity|]. cbn [storage setPc release callKey withPc].
  split; [apply lookup_insert_eq|]. split.
  - intros k Hk. by rewrite lookup_insert_ne.
  - cbn [calls setPc release]. rewrite list_lookup_alter_eq.
    rewrite list_lookup_alter_eq, Hi. done.
Qed.

End Reset.

End ApiFacts.

(** ** The [useCachedData] hook *)

Module HookFacts.
Import JsString Keys Identities Cache CacheFacts Hook.

Section LoadData.
Context {Data : Type}.
Implicit Types (st : gmap string (Item Data)) (env : HookEnv Data)
  (prev : HookState Data).

(** X19: the hook shows a stored entry without calling [fetchFunction] as
    long as the clock is at most [expireTime] past the [timestamp] of the
    entry (the bound included), whatever [expiresAt] the entry has; the
    storage is left as it is. *)
Theorem loadData_fresh api key expireTime env prev st v ts e :
  readOk env = true → mountedAtRead env = true →
  st !! hookGetCacheKey api key = Some (Entry v ts e) →
  (now env - ts ≤ expireTime)%Z →
  loadData api key expireTime env prev st
  = {| state := {| hookData := Some v; isLoading := false;
                   hookError := None |};
       stored := st; fetches := 0 |}.
Proof.
  intros Hr Hm Hst Hfresh. unfold loadData. rewrite Hr, Hst, Hm.
  unfold isExpired. destruct (Z.gtb_spec (now env - ts) expireTime); [lia|done].
Qed.

(** X20: the hook does not treat storage failures as misses. When the read
    fails or the stored text does not parse, [fetchFunction] is not called
    and the hook ends with the exception as its error and its data
    unchanged; when the write of a fetched value fails, the hook shows the
    value together with the exception as its error. The storage is
    unchanged in each case. *)
Theorem loadData_storage_errors api key expireTime env prev st :
  (readOk env = false ∨ st !! hookGetCacheKey api key = Some Garbage →
   mountedAtRead env = true →
   loadData api key expireTime env prev st
   = {| state := {| hookData := hookData prev; isLoading := false;
                    hookError := Some (thrown env) |};
        stored := st; fetches := 0 |}) ∧
  (∀ r, readOk env = true → st !! hookGetCacheKey api key = None →
        fetched env = Response r → mountedAtFetch env = true →
        writeOk env = false → mountedAtWrite env = true →
        loadData api key expireTime env prev st
        = {| state := {| hookData := Some r; isLoading := false;
                         hookError := Some (thrown env) |};
             stored := st; fetches := 1 |}).
Proof.
  split.
  - intros H Hm. unfold loadData, failed. rewrite Hm.
    destruct H as [->|H]; [done|]. rewrite H. by destruct (readOk env).
  - intros r Hr Hst Hf Hm Hw Hm'. unfold loadData, fetchFresh, failed.
    by rewrite Hr, Hst, Hf, Hm, Hw, Hm'.
Qed.

(** X21: the hook has no fallback to an expired entry: when [fetchFunction]
    fails, the hook ends with the message of the failure as its error and
    with the data it had before, although an entry, expired, is stored. *)
Theorem loadData_no_stale_fallback api key expireTime env prev st v ts e msg :
  readOk env = true →
  st !! hookGetCacheKey api key = Some (Entry v ts e) →
  (expireTime < now env - ts)%Z →
  fetched env = Failure msg → mountedAtFetch env = true →
  loadData api key expireTime env prev st
  = {| state := {| hookData := hookData prev; isLoading := false;
                   hookError := Some msg |};
       stored := st; fetches := 1 |}.
Proof.
  intros Hr Hst Hexp Hf Hm. unfold loadData, fetchFresh, failed, isExpired.
  rewrite Hr, Hst, Hf, Hm.
  by destruct (Z.gtb_spec (now env - ts) expireTime); [|lia].
Qed.


End LoadData.

End HookFacts.

(** ** Processing an array in chunks *)

Module ChunksFacts.
Import Chunks.

Lemma slice_forward {A : Type} (i c : Z) (l : list A) :
  (0 ≤ i)%Z → (0 ≤ c)%Z →
  slice i (i + c) l = take (Z.to_nat c) (drop (Z.to_nat i) l).
Proof.
  intros Hi Hc. unfold slice.
  destruct (Z.ltb_spec i 0) as [|_]; [lia|].
  destruct (Z.ltb_spec (i + c) 0) as [|_]; [lia|].
  set (len := Z.of_nat (List.length l)).
  destruct (Z.le_gt_cases (i + c) len) as [H1|H1].
  - rewrite (Z.min_l i), (Z.min_l (i + c)) by lia. f_equal. f_equal. lia.
  - rewrite (Z.min_r (i + c)) by lia.
    destruct (Z.le_gt_cases i len) as [H2|H2].
    + rewrite (Z.min_l i) by lia.
      rewrite !take_ge; [done|rewrite length_drop; lia..].
    + rewrite (Z.min_r i) by lia.
      rewrite !drop_ge by lia. by rewrite !take_nil.
Qed.

Lemma processNextChunk_done {T R : Type} (f : T → R) (array : list T)
    (c : Z) (fuel : nat) (index : Z) :
  (1 ≤ c)%Z → (0 ≤ index)%Z →
  (Z.of_nat (List.length array) ≤ Z.of_nat (S fuel) * c + index)%Z →
  processNextChunk fuel array f c index (map f (take (Z.to_nat index) array))
  = Some (map f array).
Proof.
  intros Hc. revert index.
  induction fuel as [|fuel IH]; intros index Hi Hlen; cbn [processNextChunk];
    rewrite slice_forward by lia; rewrite <- map_app, take_take_drop;
    replace (Z.to_nat index + Z.to_nat c)%nat with (Z.to_nat (index + c))
      by lia;
    destruct (Z.ltb_spec (index + c) (Z.of_nat (List.length array)))
      as [Hlt|Hge]; try lia.
  - by rewrite take_ge by lia.
  - apply IH; lia.
  - by rewrite take_ge by lia.
Qed.

(** X23: with a chunk size of at least 1 the promise is resolved with the
    items processed in their order, as [array.map(processItem)] gives them,
    once enough timer callbacks have run: one less than the number of
    chunks. *)
Theorem processArrayInChunks_map {T R : Type} (f : T → R) (array : list T)
    (chunkSize : Z) (fuel : nat) :
  (1 ≤ chunkSize)%Z →
  (Z.of_nat (List.length array) ≤ Z.of_nat (S fuel) * chunkSize)%Z →
  processArrayInChunks fuel array f chunkSize = Some (map f array).
Proof.
  intros Hc Hlen. unfold processArrayInChunks.
  apply (processNextChunk_done f array chunkSize fuel 0); lia.
Qed.

(** X24: with a chunk size of 0 or less and an array that is not empty the
    promise is never resolved, however many timer callbacks run. *)
Theorem processArrayInChunks_stuck {T R : Type} (f : T → R) (array : list T)
    (chunkSize : Z) (fuel : nat) :
  (chunkSize ≤ 0)%Z → array ≠ [] →
  processArrayInChunks fuel array f chunkSize = None.
Proof.
  intros Hc Hne. unfold processArrayInChunks.
  assert (Hlen : (0 < Z.of_nat (List.length array))%Z)
    by (destruct array; [done|simpl; lia]).
  assert (H : ∀ index result, (index ≤ 0)%Z →
            processNextChunk fuel array f chunkSize index result = None).
  { induction fuel as [|fuel IH]; intros index result Hi;
      cbn [processNextChunk];
      destruct (Z.ltb_spec (index + chunkSize)
                  (Z.of_nat (List.length array))); try lia; [done|].
    apply IH. lia. }
  by apply H.
Qed.

End ChunksFacts.

(** ** The format chosen from a container extension *)

Module FormatFacts.
Import Resolver.

Lemma lowerChar_idem (c : ascii) : lowerChar (lowerChar c) = lowerChar c.
Proof. by destruct c as [[] [] [] [] [] [] [] []]. Qed.

Lemma toLowerCase_idem (s : string) :
  toLowerCase (toLowerCase s) = toLowerCase s.
Proof.
  induction s as [|c s IH]; simpl; [done|]. by rewrite lowerChar_idem, IH.
Qed.

Lemma toLowerCase_empty (s : string) : toLowerCase s = "" ↔ s = "".
Proof. by destruct s. Qed.

Lemma getPreferredStreamFormat_lower (ext : string) :
  getPreferredStreamFormat ext
  = if String.eqb (toLowerCase ext) "mp4" then Mp4
    else if String.eqb (toLowerCase ext) "ts" then Ts
    else M3u8.
Proof.
  unfold getPreferredStreamFormat.
  destruct (String.eqb_spec ext "") as [->|]; done.
Qed.

(** X25: the format chosen for a container extension does not depend on
    the case of its letters, is mp4 exactly for [mp4] and ts exactly for
    [ts] in any case, and m3u8 for every other text; it gives back each
    format from its own name. *)
Theorem getPreferredStreamFormat_cases (ext : string) :
  getPreferredStreamFormat (toLowerCase ext) = getPreferredStreamFormat ext ∧
  (getPreferredStreamFormat ext = Mp4 ↔ toLowerCase ext = "mp4") ∧
  (getPreferredStreamFormat ext = Ts ↔ toLowerCase ext = "ts") ∧
  (∀ f, getPreferredStreamFormat (formatName f) = f).
Proof.
  rewrite !getPreferredStreamFormat_lower, toLowerCase_idem.
  split; [done|].
  destruct (String.eqb_spec (toLowerCase ext) "mp4") as [E|E];
    [rewrite E; repeat split; try done; by destruct f|].
  destruct (String.eqb_spec (toLowerCase ext) "ts") as [E'|E'];
    repeat split; try done; by destruct f.
Qed.

End FormatFacts.

(** ** Examples *)

Module MoreExamples.
Import Keys Identities Cache CacheScenarios CacheFacts Resolver Player
  PlayerScenarios History PlayerHistory Api Hook MoreScenarios.

Lemma unreadable_history_is_empty_witness :
  getRecentlyWatched home true 10 corruptHistory = [] ∧
  getWatchedByType home true VodItem 20 corruptHistory = [] ∧
  getPlaybackPosition nonZero home true 42 VodItem None None corruptHistory
  = None ∧
  addToHistory home true true 5000 watchedFilm corruptHistory
    !! getUserKey home
  = Some (Items [stamped 5000 watchedFilm]).
Proof.
  apply (HistoryFacts.unreadable_history_is_empty nonZero home true 5000
           watchedFilm corruptHistory 10 42 VodItem None None).
  right. reflexivity.
Defined.

Lemma getWatchedByType_bound_witness :
  (Z.of_nat (List.length (getWatchedByType home true VodItem 1 someHistory))
   ≤ 1)%Z ∧
  Forall (λ h, type h = VodItem)
         (getWatchedByType home true VodItem 1 someHistory) ∧
  getWatchedByType home true VodItem 1 someHistory
    `sublist_of` getHistory home someHistory true.
Proof.
  apply (HistoryFacts.getWatchedByType_bound home true VodItem 1 someHistory).
  lia.
Defined.


Lemma formatTime_below_one_hour_witness :
  String.length (formatTime 65000) = 5%nat ∧
  clockSeconds (formatTime 65000) = Some (65000 / 1000)%Z ∧
  (formatTime 65000 = formatTime 65999 ↔ (65000 / 1000 = 65999 / 1000)%Z).
Proof.
  apply (PlayerHistoryFacts.formatTime_below_one_hour 65000 65999); lia.
Defined.

Lemma loaded_clears_load_timer_witness :
  ∃ s1 s',
    Player.step home film (StatusUpdate true false) (mount filmUri) = Some s1 ∧
    Player.run home film [PlaybackError None; Unloaded; ReloadTimer] s1
    = Some s' ∧
    loadTimeout s' = false ∧
    ¬ In LoadTimeout [PlaybackError None; Unloaded; ReloadTimer].
Proof.
  eexists _, _. split; [vm_compute; reflexivity|].
  split; [vm_compute; reflexivity|].
  eapply (PlayerTimerFacts.loaded_clears_load_timer home film
            (StatusUpdate true false)
            [PlaybackError None; Unloaded; ReloadTimer] (mount filmUri));
    [right; left; reflexivity|vm_compute; reflexivity..].
Defined.

Lemma unmounted_never_loads_witness :
  ∃ s1 s',
    Player.step home film Unmount switching = Some s1 ∧
    Player.run home film [Unloaded; ReloadTimer] s1 = Some s' ∧
    loads s' = [] ∧ playbackAttempt s' = 0%nat ∧ videoMounted s' = false.
Proof.
  eexists _, _. split; [vm_compute; reflexivity|].
  split; [vm_compute; reflexivity|].
  eapply (PlayerTimerFacts.unmounted_never_loads home film
            [Unloaded; ReloadTimer] switching); vm_compute; reflexivity.
Defined.

Lemma error_retries_within_budget_witness :
  ∃ s, Player.run home film threeErrors (mount filmUri) = Some s ∧
       reported s = ["decoder failed"] ∧
       (playbackAttempt s ≤ 2)%nat ∧
       (List.length (unloading s) + reloadTimers s ≤ 1)%nat ∧
       (playbackAttempt s + List.length (unloading s) + reloadTimers s ≤ 2)%nat.
Proof.
  eexists. split; [vm_compute; reflexivity|]. split; [reflexivity|].
  apply (PlayerTimerFacts.error_retries_within_budget home film threeErrors
           filmUri); vm_compute; reflexivity.
Defined.


Lemma clearCache_complete_witness :
  clearCache home Live true true liveStorage
    !! getCacheKey home (reqKey (liveStreamsRequest home (Some "5"))) = None.
Proof.
  apply (ApiFacts.clearCache_complete home Live _ liveStorage).
  apply key_liveStreams.
Defined.

Lemma getter_result_witness :
  fst (getter (λ d, String.eqb d "null") "[]"
         (vodStreamsRequest home None) (netDown 5000) staleWorld) = "[1]" ∧
  fst (getter (λ d, String.eqb d "null") "[]"
         (vodStreamsRequest home None) (netDown 5000) emptyWorld) = "[]".
Proof.
  split.
  - apply (ApiFacts.getter_result (λ d, String.eqb d "null") "[]"
             (vodStreamsRequest home None) (netDown 5000) staleWorld).
    reflexivity.
  - apply (ApiFacts.getter_result (λ d, String.eqb d "null") "[]"
             (vodStreamsRequest home None) (netDown 5000) emptyWorld).
    reflexivity.
Defined.


Lemma response_stored_under_current_identity_witness :
  ∃ w', Cache.run [FetchDone 0 9; SaveDone 0 true] answeredThenSwitched
        = Some w' ∧
        storage w' !! getCacheKey dan "live_categories"
        = Some (cacheData "[1]" 9 3600000) ∧
        (∀ k, k ≠ getCacheKey dan "live_categories" →
              storage w' !! k = storage answeredThenSwitched !! k) ∧
        (pc <$> calls w' !! 0%nat) = Some (Done (Ok "[1]")).
Proof.
  exact (ApiFacts.response_stored_under_current_identity
           answeredThenSwitched 0 answeredCall None "[1]" 9
           eq_refl eq_refl).
Defined.

Lemma loadData_fresh_witness :
  loadData home "vod_streams_all" halfHour
    (hookEnv true true halfHour (Failure "offline")) hookStart hookStorage
  = {| state := {| hookData := Some "[1]"; isLoading := false;
                   hookError := None |};
       stored := hookStorage; fetches := 0 |}.
Proof.
  apply (HookFacts.loadData_fresh home "vod_streams_all" halfHour
           (hookEnv true true halfHour (Failure "offline")) hookStart
           hookStorage "[1]" 0 None); [reflexivity|reflexivity|reflexivity|].
  vm_compute. discriminate.
Defined.

Lemma loadData_storage_errors_witness :
  loadData home "vod_streams_all" halfHour
    (hookEnv false true 5 (Response "[2]")) hookStart hookStorage
  = {| state := {| hookData := None; isLoading := false;
                   hookError := Some "storage failed" |};
       stored := hookStorage; fetches := 0 |} ∧
  loadData home "vod_streams_all" halfHour
    (hookEnv true false 5 (Response "[2]")) hookStart ∅
  = {| state := {| hookData := Some "[2]"; isLoading := false;
                   hookError := Some "storage failed" |};
       stored := ∅; fetches := 1 |}.
Proof.
  split.
  - apply (HookFacts.loadData_storage_errors home "vod_streams_all" halfHour
             (hookEnv false true 5 (Response "[2]")) hookStart hookStorage);
      [left; reflexivity|reflexivity].
  - apply (HookFacts.loadData_storage_errors home "vod_streams_all" halfHour
             (hookEnv true false 5 (Response "[2]")) hookStart ∅);
      reflexivity.
Defined.

Lemma loadData_no_stale_fallback_witness :
  loadData home "vod_streams_all" halfHour
    (hookEnv true true (minutes 31) (Failure "offline")) hookStart hookStorage
  = {| state := {| hookData := None; isLoading := false;
                   hookError := Some "offline" |};
       stored := hookStorage; fetches := 1 |}.
Proof.
  apply (HookFacts.loadData_no_stale_fallback home "vod_streams_all" halfHour
           (hookEnv true true (minutes 31) (Failure "offline")) hookStart
           hookStorage "[1]" 0 None "offline");
    [reflexivity|reflexivity|vm_compute; reflexivity|reflexivity|reflexivity].
Defined.


Lemma processArrayInChunks_map_witness :
  Chunks.processArrayInChunks 2 [1; 2; 3; 4; 5]%Z Z.succ 2
  = Some (map Z.succ [1; 2; 3; 4; 5]%Z).
Proof.
  apply (ChunksFacts.processArrayInChunks_map Z.succ [1; 2; 3; 4; 5]%Z 2 2);
    simpl; lia.
Defined.

Lemma processArrayInChunks_stuck_witness :
  Chunks.processArrayInChunks 50 [1; 2; 3]%Z Z.succ 0 = None.
Proof.
  apply (ChunksFacts.processArrayInChunks_stuck Z.succ [1; 2; 3]%Z 0 50);
    [lia|discriminate].
Defined.

End MoreExamples.
